(** * OneBot: ticket workflow and log files

    A shallow embedding of [src/cogs/tickets.py] (the [Tickets] cog) and
    of [_open_file] and [_delete_old_logs] from [src/logs.py], with the
    properties of the ticket lifecycle and of the log directory stated
    over it.

    Python integers are [Z]; strings are [string]; the SQLite database
    is a pair of tables; the Discord guild is an abstract channel
    service; coroutines run to completion one after the other, so a
    coroutine is a state transformer that either returns or raises. *)

From Stdlib Require Import ZArith Ascii String List Lia.
From stdpp Require Import base numbers list strings pretty gmap.

Open Scope string_scope.
Open Scope Z_scope.

(** ** Python values that reach the cog *)

(** [constants.TicketType]: the two members the cog names. *)
Inductive TicketType := REPORT | SUGGESTION.

Global Instance TicketType_eq_dec : EqDecision TicketType.
Proof. solve_decision. Defined.

(** [ticket_type.name] *)
Definition name (t : TicketType) : string :=
  match t with REPORT => "REPORT" | SUGGESTION => "SUGGESTION" end.

(** ASCII case mapping, as [str.lower] and [str.upper] act on the
    members' names. *)
Definition lower_ascii (c : ascii) : ascii :=
  let n := nat_of_ascii c in
  if (Nat.leb 65 n && Nat.leb n 90)%bool then ascii_of_nat (n + 32) else c.

Definition upper_ascii (c : ascii) : ascii :=
  let n := nat_of_ascii c in
  if (Nat.leb 97 n && Nat.leb n 122)%bool then ascii_of_nat (n - 32) else c.

Definition is_alpha (c : ascii) : bool :=
  let n := nat_of_ascii c in
  ((Nat.leb 65 n && Nat.leb n 90) || (Nat.leb 97 n && Nat.leb n 122))%bool.

(** [str.lower] *)
Fixpoint lower (s : string) : string :=
  match s with
  | EmptyString => EmptyString
  | String c s' => String (lower_ascii c) (lower s')
  end.

(** [str.title]: a letter is upper-cased when it follows a non-letter
    and lower-cased when it follows a letter. *)
Fixpoint title_from (prev_alpha : bool) (s : string) : string :=
  match s with
  | EmptyString => EmptyString
  | String c s' =>
      String (if prev_alpha then lower_ascii c else upper_ascii c)
             (title_from (is_alpha c) s')
  end.

Definition title (s : string) : string := title_from false s.

(** [discord.Member], with the attributes the cog reads: [.id],
    [.mention], [.colour], and [str(member)]. *)
Record Member := {
  m_id : Z;
  m_mention : string;
  m_colour : Z;
  m_str : string
}.

(** An element of [*args]: the callers pass members and modal text. *)
Inductive Arg :=
| AMember (m : Member)
| AText (s : string).

(** [discord.Member.__eq__] compares ids; a [str] never equals a member. *)
Definition arg_eq_member (a : Arg) (u : Member) : bool :=
  match a with
  | AMember m => bool_decide (m_id m = m_id u)
  | AText _ => false
  end.

(** [str(value)], as [Embed.add_field] stores its value. *)
Definition arg_str (a : Arg) : string :=
  match a with
  | AMember m => m_str m
  | AText s => s
  end.

(** [discord.Interaction]: only [.user] is read. *)
Record Interaction := { user : Member }.

(** [discord.TextChannel] as returned by the guild. *)
Record Channel := {
  ch_id : Z;
  ch_name : string;
  ch_category : Z
}.

Record Field := {
  f_name : string;
  f_value : string;
  f_inline : bool
}.

(** [discord.Embed] *)
Record Embed := {
  e_colour : Z;
  e_title : string;
  e_fields : list Field
}.

Definition add_field (e : Embed) (n v : string) (inline : bool) : Embed :=
  {| e_colour := e_colour e;
     e_title := e_title e;
     e_fields := e_fields e ++ [ {| f_name := n; f_value := v; f_inline := inline |} ] |}.

(** ** Exceptions and results *)

Inductive Exn :=
| IndexError
| AttributeError
| ProgrammingError
| HTTPException.

Inductive Outcome (A : Type) :=
| Returned (a : A)
| Raised (e : Exn).
Arguments Returned {A} a.
Arguments Raised {A} e.

(** ** The ticket store *)

(** A value bound to a [?] or read back from a column. *)
Inductive SqlValue :=
| SqlNull
| SqlInt (z : Z)
| SqlText (s : string).

Global Instance SqlValue_eq_dec : EqDecision SqlValue.
Proof. solve_decision. Defined.

Inductive TableName := user_report_tickets | user_suggestion_tickets.

Global Instance TableName_eq_dec : EqDecision TableName.
Proof. solve_decision. Defined.

(** A ticket row. [accused_user_id] is [None] in the suggestion table,
    which has no such column; [msg] is [reason_msg] or
    [suggestion_msg]. *)
Record Row := {
  ticket_id : Z;
  user_id : SqlValue;
  accused_user_id : option SqlValue;
  channel_id : SqlValue;
  msg : SqlValue
}.

(** A table: its rows in insertion order and the largest id it has
    ever handed out. *)
Record Table := {
  rows : list Row;
  seq : Z
}.

Record Database := {
  reports : Table;
  suggestions : Table
}.

Definition get_table (d : Database) (t : TableName) : Table :=
  match t with
  | user_report_tickets => reports d
  | user_suggestion_tickets => suggestions d
  end.

Definition set_table (d : Database) (t : TableName) (tb : Table) : Database :=
  match t with
  | user_report_tickets => {| reports := tb; suggestions := suggestions d |}
  | user_suggestion_tickets => {| reports := reports d; suggestions := tb |}
  end.

Definition empty_table : Table := {| rows := []; seq := 0 |}.
Definition empty_db : Database := {| reports := empty_table; suggestions := empty_table |}.

(** The largest [ticket_id] among the rows, if there is a row. *)
Fixpoint greatest_id (rs : list Row) : option Z :=
  match rs with
  | [] => None
  | r :: rs' =>
      Some (match greatest_id rs' with
            | None => ticket_id r
            | Some m => Z.max (ticket_id r) m
            end)
  end.

(** Modelled from the spec: the table schema is not part of the cog;
    [ticket_id] is an auto-increment integer primary key whose values
    are assigned by the store, increase, and are never reused after a
    delete. The id of a new row is one more than the largest id the
    table has ever held. *)
Definition next_id (tb : Table) : Z := Z.max (seq tb) (default 0 (greatest_id (rows tb))) + 1.

(** The statements the cog sends, after the table name is formatted in. *)
Inductive Statement :=
| InsertTicket (t : TableName)
| SelectLastId (t : TableName)
| UpdateChannel (t : TableName)
| SelectChannel (t : TableName)
| DeleteTicket (t : TableName).

(** [INSERT INTO user_report_tickets (user_id, accused_user_id,
    channel_id, reason_msg) VALUES (?, ?, NULL, ?)] and
    [INSERT INTO user_suggestion_tickets (user_id, channel_id,
    suggestion_msg) VALUES (?, NULL, ?)]: the bindings must match the
    placeholders in number. *)
Definition sql_insert (t : TableName) (vals : list SqlValue) (tb : Table)
  : option Table :=
  let i := next_id tb in
  match t, vals with
  | user_report_tickets, [u; a; m] =>
      Some {| rows := rows tb ++
                [ {| ticket_id := i; user_id := u; accused_user_id := Some a;
                     channel_id := SqlNull; msg := m |} ];
              seq := i |}
  | user_suggestion_tickets, [u; m] =>
      Some {| rows := rows tb ++
                [ {| ticket_id := i; user_id := u; accused_user_id := None;
                     channel_id := SqlNull; msg := m |} ];
              seq := i |}
  | _, _ => None
  end.

(** [SELECT ticket_id FROM t ORDER BY ticket_id DESC LIMIT 1] *)
Definition sql_last_id (tb : Table) : list (list SqlValue) :=
  match greatest_id (rows tb) with
  | None => []
  | Some m => [ [SqlInt m] ]
  end.

(** A row with its [channel_id] set. *)
Definition with_channel (c : SqlValue) (r : Row) : Row :=
  {| ticket_id := ticket_id r; user_id := user_id r;
     accused_user_id := accused_user_id r; channel_id := c; msg := msg r |}.

(** [UPDATE t SET channel_id = ? WHERE ticket_id = ?] *)
Definition sql_update_channel (c i : SqlValue) (tb : Table) : Table :=
  {| rows := map (fun r =>
                    if bool_decide (SqlInt (ticket_id r) = i)
                    then with_channel c r
                    else r) (rows tb);
     seq := seq tb |}.

(** [SELECT channel_id FROM t WHERE ticket_id=?] *)
Definition sql_select_channel (i : SqlValue) (tb : Table) : list (list SqlValue) :=
  map (fun r => [channel_id r])
      (filter (fun r => SqlInt (ticket_id r) = i) (rows tb)).

(** [DELETE FROM t WHERE ticket_id=?] *)
Definition sql_delete (i : SqlValue) (tb : Table) : Table :=
  {| rows := filter (fun r => SqlInt (ticket_id r) ≠ i) (rows tb);
     seq := seq tb |}.

(** ** Effects *)

(** What the cog asks of its collaborators, in the order it asks; a
    request is recorded when it is made, whatever its result. *)
Inductive Event :=
| EvFollowup (content : string) (ephemeral : bool)
| EvRespond (content : string) (ephemeral : bool)
| EvExecute (q : Statement) (params : list SqlValue)
| EvFetchall (q : Statement) (params : list SqlValue) (result : list (list SqlValue))
| EvCommit
| EvCreateChannel (name : string) (category : Z)
| EvSend (ch : Channel) (e : Embed)
| EvDeleteChannel (ch : Channel) (reason : string).

(** The guild as the cog uses it: [guild.create_text_channel],
    [guild.get_channel] and [channel.delete]. [None] from the first and
    the last is a raised [HTTPException]; [get_channel] answers [None]
    for an id it does not know. *)
Class ChannelService (G : Type) := {
  create_text_channel : string → Z → G → option (Channel * G);
  get_channel : SqlValue → G → option Channel;
  delete_channel : Channel → G → option G
}.

Record State (G : Type) := mkState {
  db : Database;
  guild : G;
  trace : list Event
}.
Arguments mkState {G} _ _ _.
Arguments db {G} _.
Arguments guild {G} _.
Arguments trace {G} _.

(** A coroutine awaited to completion. *)
Definition M (G A : Type) : Type := State G → Outcome A * State G.

Definition ret {G A} (a : A) : M G A := λ s, (Returned a, s).

Definition bind {G A B} (m : M G A) (k : A → M G B) : M G B := λ s,
  match m s with
  | (Returned a, s') => k a s'
  | (Raised e, s') => (Raised e, s')
  end.

Definition obind {A B} (o : Outcome A) (k : A → Outcome B) : Outcome B :=
  match o with
  | Returned a => k a
  | Raised e => Raised e
  end.

Notation "'let*' x ':=' m 'in' k" := (bind m (λ x, k))
  (at level 10, x name, m at level 100, k at level 200, only parsing).
Notation "m ';;;' k" := (bind m (λ _, k))
  (at level 100, k at level 200, right associativity, only parsing).
Notation "'let?' x ':=' o 'in' k" := (obind o (λ x, k))
  (at level 10, x name, o at level 100, k at level 200, only parsing).

Definition lift {G A} (o : Outcome A) : M G A := λ s, (o, s).

Definition emit {G} (e : Event) : M G unit := λ s,
  (Returned tt, mkState (db s) (guild s) (trace s ++ [e])).

(** [l[i]] *)
Definition index {A} (l : list A) (i : nat) : Outcome A :=
  match l !! i with
  | Some a => Returned a
  | None => Raised IndexError
  end.

(** Reading [.mention] or [.colour]: only a member has them. *)
Definition as_member (a : Arg) : Outcome Member :=
  match a with
  | AMember m => Returned m
  | AText _ => Raised AttributeError
  end.

(** [db.execute] of the insert. *)
Definition execute_insert {G} (t : TableName) (vals : list SqlValue) : M G unit :=
  λ s,
    let s1 := mkState (db s) (guild s) (trace s ++ [EvExecute (InsertTicket t) vals]) in
    match sql_insert t vals (get_table (db s) t) with
    | Some tb => (Returned tt, mkState (set_table (db s) t tb) (guild s) (trace s1))
    | None => (Raised ProgrammingError, s1)
    end.

(** [db.execute] of the update. *)
Definition execute_update {G} (t : TableName) (c i : SqlValue) : M G unit :=
  λ s,
    (Returned tt,
     mkState (set_table (db s) t (sql_update_channel c i (get_table (db s) t)))
             (guild s)
             (trace s ++ [EvExecute (UpdateChannel t) [c; i]])).

(** [db.execute] of the delete. *)
Definition execute_delete {G} (t : TableName) (i : SqlValue) : M G unit :=
  λ s,
    (Returned tt,
     mkState (set_table (db s) t (sql_delete i (get_table (db s) t)))
             (guild s)
             (trace s ++ [EvExecute (DeleteTicket t) [i]])).

(** [db.execute_fetchall] of the two selects. *)
Definition fetch_last_id {G} (t : TableName) : M G (list (list SqlValue)) :=
  λ s,
    let r := sql_last_id (get_table (db s) t) in
    (Returned r, mkState (db s) (guild s) (trace s ++ [EvFetchall (SelectLastId t) [] r])).

Definition fetch_channel {G} (t : TableName) (i : SqlValue) : M G (list (list SqlValue)) :=
  λ s,
    let r := sql_select_channel i (get_table (db s) t) in
    (Returned r,
     mkState (db s) (guild s) (trace s ++ [EvFetchall (SelectChannel t) [i] r])).

Definition commit {G} : M G unit := emit EvCommit.

(** [str(x)] for a value read from the store. *)
Definition sql_str (v : SqlValue) : string :=
  match v with
  | SqlNull => "None"
  | SqlInt z => pretty z
  | SqlText s => s
  end.

(** ** The cog *)

Section Tickets.
Context {G : Type} `{ChannelService G}.

(** [self.bot.config['guild']['category_ids']['tickets']] *)
Variable tickets_category : Z.

(** [guild.create_text_channel(name=..., category=...)] *)
Definition create_ticket_channel (prefix : string) (ticket_id : SqlValue)
  : M G Channel :=
  λ s,
    let nm := prefix ++ "-ticket-" ++ sql_str ticket_id in
    let s1 := mkState (db s) (guild s)
                      (trace s ++ [EvCreateChannel nm tickets_category]) in
    match create_text_channel nm tickets_category (guild s) with
    | Some (ch, g') => (Returned ch, mkState (db s1) g' (trace s1))
    | None => (Raised HTTPException, s1)
    end.

Definition create_ticket_embed (ticket_type : TicketType) (ticket_id : SqlValue)
    (args : list Arg) : Outcome Embed :=
  let? a0 := index args 0 in
  let? m0 := as_member a0 in
  let embed := {| e_colour := m_colour m0;
                  e_title := title (name ticket_type) ++ " Ticket #" ++ sql_str ticket_id;
                  e_fields := [] |} in
  if decide (ticket_type = REPORT) then
    let embed := add_field embed "Accuser" (m_mention m0) false in
    let? a1 := index args 1 in
    let? m1 := as_member a1 in
    let embed := add_field embed "Accusing" (m_mention m1) false in
    let? a2 := index args 2 in
    let embed := add_field embed "Reason Given" (arg_str a2) false in
    Returned embed
  else
    let embed := add_field embed "Suggestion From" (m_mention m0) false in
    let? a1 := index args 1 in
    let embed := add_field embed "Suggestion/Feature Request" (arg_str a1) false in
    Returned embed.

(** [normalized_sql_values] *)
Definition normalize (a : Arg) : SqlValue :=
  match a with
  | AMember m => SqlInt (m_id m)
  | AText s => SqlText s
  end.

Definition table_of (ticket_type : TicketType) : TableName :=
  match ticket_type with
  | REPORT => user_report_tickets
  | SUGGESTION => user_suggestion_tickets
  end.

Definition self_report_msg : string :=
  "You cannot report yourself" ++ String "010" "  ╰(ಠ ͟ʖ ಠ)╯".

(** Lines 141-175: what [create_ticket] does once the table is chosen. *)
Definition write_ticket (ticket_type : TicketType) (args : list Arg) : M G unit :=
  let table := table_of ticket_type in
  let normalized_sql_values := map normalize args in
  execute_insert table normalized_sql_values;;;
  commit;;;
  let* res := fetch_last_id table in
  let* row := lift (index res 0) in
  let* ticket_id := lift (index row 0) in
  let* channel := create_ticket_channel (lower (name ticket_type)) ticket_id in
  execute_update table (SqlInt (ch_id channel)) ticket_id;;;
  commit;;;
  let* embed := lift (create_ticket_embed ticket_type ticket_id args) in
  emit (EvSend channel embed).

Definition create_ticket (interaction : Interaction) (ticket_type : TicketType)
    (args : list Arg) : M G unit :=
  match ticket_type with
  | REPORT =>
      let* a1 := lift (index args 1) in
      if arg_eq_member a1 (user interaction)
      then emit (EvFollowup self_report_msg true)
      else write_ticket REPORT args
  | SUGGESTION => write_ticket SUGGESTION args
  end.

Definition closed_msg : string :=
  "Ticket closed. The ticket channel has also been deleted.".

Definition not_found_msg (ticket_type : TicketType) (ticket_id : Z) : string :=
  "There are no " ++ lower (name ticket_type) ++ " tickets with the id: "
    ++ pretty ticket_id.

(** [guild.get_channel(channel_id).delete(reason='Ticket closed')] *)
Definition delete_ticket_channel (channel_id : SqlValue) : M G unit :=
  λ s,
    match get_channel channel_id (guild s) with
    | None => (Raised AttributeError, s)
    | Some ch =>
        let s1 := mkState (db s) (guild s)
                          (trace s ++ [EvDeleteChannel ch "Ticket closed"]) in
        match delete_channel ch (guild s) with
        | Some g' => (Returned tt, mkState (db s1) g' (trace s1))
        | None => (Raised HTTPException, s1)
        end
    end.

Definition close_ticket (interaction : Interaction) (ticket_type : TicketType)
    (ticket_id : Z) : M G unit :=
  let table := table_of ticket_type in
  let* result := fetch_channel table (SqlInt ticket_id) in
  match (let? row := index result 0 in index row 0) with
  | Raised _ => emit (EvRespond (not_found_msg ticket_type ticket_id) true)
  | Returned channel_id =>
      execute_delete table (SqlInt ticket_id);;;
      commit;;;
      delete_ticket_channel channel_id;;;
      emit (EvRespond closed_msg true)
  end.

End Tickets.

(** ** A guild to run the cog against

    Channels get consecutive ids; the service answers while [online]. *)
Module SimpleGuild.

Record t := mk {
  channels : list Channel;
  next_snowflake : Z;
  online : bool
}.

Definition create (nm : string) (cat : Z) (g : t) : option (Channel * t) :=
  if online g then
    let ch := {| ch_id := next_snowflake g; ch_name := nm; ch_category := cat |} in
    Some (ch, mk (channels g ++ [ch]) (next_snowflake g + 1) (online g))
  else None.

Definition get (v : SqlValue) (g : t) : option Channel :=
  match v with
  | SqlInt i => List.find (λ c, bool_decide (ch_id c = i)) (channels g)
  | _ => None
  end.

Definition delete (ch : Channel) (g : t) : option t :=
  if online g then
    Some (mk (List.filter (λ c, negb (bool_decide (ch_id c = ch_id ch))) (channels g))
             (next_snowflake g) (online g))
  else None.

Global Instance service : ChannelService t := {
  create_text_channel := create;
  get_channel := get;
  delete_channel := delete
}.

Definition fresh : t := mk [] 100 true.

End SimpleGuild.

(** Lines 282-286 read on their own: the [channel_id] of ticket [i],
    [None] where [result[0]] raises [IndexError]. *)
Definition find_by_id (d : Database) (ticket_type : TicketType) (i : Z)
  : option SqlValue :=
  match sql_select_channel (SqlInt i) (get_table d (table_of ticket_type)) with
  | (c :: _) :: _ => Some c
  | _ => None
  end.

(** The ids held by a table, in row order. *)
Definition ids (tb : Table) : list Z := map ticket_id (rows tb).

(** The row an insert appends. *)
Definition inserted_row (t : TableName) (vals : list SqlValue) (i : Z) : option Row :=
  match t, vals with
  | user_report_tickets, [u; a; m] =>
      Some {| ticket_id := i; user_id := u; accused_user_id := Some a;
              channel_id := SqlNull; msg := m |}
  | user_suggestion_tickets, [u; m] =>
      Some {| ticket_id := i; user_id := u; accused_user_id := None;
              channel_id := SqlNull; msg := m |}
  | _, _ => None
  end.

(** ** Running the cog

    Commands handled one after the other: each [create_ticket] runs to
    its outcome, and whatever it wrote stays written. *)
Section Runs.
Context {G : Type} `{ChannelService G}.
Variable tickets_category : Z.

Fixpoint create_tickets (ticket_type : TicketType)
    (reqs : list (Interaction * list Arg)) (s : State G) : State G :=
  match reqs with
  | [] => s
  | (interaction, args) :: reqs' =>
      create_tickets ticket_type reqs'
        (snd (create_ticket tickets_category interaction ticket_type args s))
  end.

End Runs.

(** The guard of lines 123-126: a REPORT whose [args[1]] equals
    [interaction.user]. *)
Definition self_report (interaction : Interaction) (ticket_type : TicketType)
    (args : list Arg) : bool :=
  match ticket_type, args !! 1%nat with
  | REPORT, Some a1 => arg_eq_member a1 (user interaction)
  | _, _ => false
  end.

(** A request whose insert is executed and accepted: not a self-report,
    and as many values as the statement has placeholders. *)
Definition inserts (ticket_type : TicketType) (req : Interaction * list Arg) : bool :=
  match ticket_type, req.2 with
  | REPORT, [_; a1; _] => negb (arg_eq_member a1 (user req.1))
  | SUGGESTION, [_; _] => true
  | _, _ => false
  end.

(** What lines 147-153 ask of the store when the insert is accepted
    and the last-id query answers [i]. *)
Definition insert_events (t : TableName) (vals : list SqlValue) (i : Z) : list Event :=
  [EvExecute (InsertTicket t) vals; EvCommit;
   EvFetchall (SelectLastId t) [] [[SqlInt i]]].

(** The answers of the last-id query on table [t] recorded in a trace. *)
Definition fetched_ids (t : TableName) (tr : list Event) : list (list (list SqlValue)) :=
  omap (λ e, match e with
             | EvFetchall (SelectLastId t') _ r =>
                 if decide (t' = t) then Some r else None
             | _ => None
             end) tr.

(** From [s] to [s1] the table [t] gained rows with the ids [k], in
    that order, and the last-id query answered exactly those. *)
Definition advanced {G} (t : TableName) (k : list Z) (s s1 : State G) : Prop :=
  fetched_ids t (trace s1) =
    (fetched_ids t (trace s) ++ ((λ i, [[SqlInt i]]) <$> k))%list ∧
  ids (get_table (db s1) t) = (ids (get_table (db s) t) ++ k)%list ∧
  next_id (get_table (db s1) t) = next_id (get_table (db s) t) + Z.of_nat (length k).

(** ** The log-file opener ([src/logs.py]) *)

Section Logs.
(** [constants.LOGS] and [datetime.now().strftime(LOG_FILENAME_FORMAT_PREFIX)] *)
Variables LOGS timestamp : string.

(** The [i]-th name of the generator [filenames]. *)
Definition filename (i : nat) : string :=
  match i with
  | O => timestamp ++ ".txt"
  | _ => timestamp ++ "_(" ++ pretty i ++ ").txt"
  end.

Definition path_of (i : nat) : string := LOGS ++ "/" ++ filename i.

(** [Path(p).open('x')] on a directory given as a map from paths to
    contents: a new empty file, or [FileExistsError] ([None]). *)
Definition open_x (p : string) (fs : gmap string string)
  : option (gmap string string) :=
  match fs !! p with
  | None => Some (<[p := ""]> fs)
  | Some _ => None
  end.

(** The [for filename in filenames] loop from [count()]'s [i]-th
    value on; [fuel] bounds the iterations. *)
Fixpoint open_from (fuel : nat) (i : nat) (fs : gmap string string)
  : option (string * gmap string string) :=
  match fuel with
  | O => None
  | S fuel' =>
      match open_x (path_of i) fs with
      | Some fs' => Some (path_of i, fs')
      | None => open_from fuel' (S i) fs
      end
  end.

(** [_open_file]. [Path(LOGS).mkdir(exist_ok=True)] leaves an existing
    directory as it is; the directory is given by its files. *)
Definition _open_file (fuel : nat) (fs : gmap string string)
  : option (string * gmap string string) :=
  open_from fuel 0 fs.

End Logs.

(** ** The commands that create tickets

    [create_suggestion_ticket] and [create_report_ticket] show a modal;
    what follows is their [on_submit], called with the modal's
    interaction and its text inputs. Both interactions answer through
    [response.send_message]. *)

Definition spaces (n : nat) : string := string_of_list_ascii (replicate n " "%char).

Definition thanks_suggestion_msg : string :=
  "Thanks for your suggestion! " ++ spaces 16
    ++ String "010" "We will look into it as soon as possible.".

Definition thanks_report_msg : string :=
  "Thanks for your report! " ++ spaces 16
    ++ String "010" "We will look into it as soon as possible.".

Definition unable_msg : string :=
  "Unable to process your report. " ++ spaces 20
    ++ String "010" "Please make sure you are entering a valid username.".

Section Commands.
Context {G : Type} `{ChannelService G}.
Variable tickets_category : Z.

(** [utils.get_member]: the member a name or id stands for in the
    guild, [None] when the answer is not a [discord.Member]. *)
Variable get_member : Interaction → string → G → option Member.

(** [create_suggestion_ticket.on_submit] *)
Definition suggestion_on_submit (interaction modal_interaction : Interaction)
    (suggestion : string) : M G unit :=
  create_ticket tickets_category interaction SUGGESTION
    [AMember (user interaction); AText suggestion];;;
  emit (EvRespond thanks_suggestion_msg true).

(** [create_report_ticket.on_submit] *)
Definition report_on_submit (interaction modal_interaction : Interaction)
    (accused_user reason : string) : M G unit :=
  λ s,
    match get_member modal_interaction accused_user (guild s) with
    | None => emit (EvRespond unable_msg true) s
    | Some member =>
        (create_ticket tickets_category interaction REPORT
           [AMember (user interaction); AMember member; AText reason];;;
         emit (EvRespond thanks_report_msg true)) s
    end.

End Commands.

(** The number of [?] in the insert for a table. *)
Definition placeholders (t : TableName) : nat :=
  match t with
  | user_report_tickets => 3
  | user_suggestion_tickets => 2
  end.

(** No two rows of a table share a [ticket_id]. *)
Definition unique_ids (d : Database) : Prop :=
  NoDup (ids (reports d)) ∧ NoDup (ids (suggestions d)).

(** The table a type does not use. *)
Definition other_table (t : TableName) : TableName :=
  match t with
  | user_report_tickets => user_suggestion_tickets
  | user_suggestion_tickets => user_report_tickets
  end.

(** ** Expired log files ([_delete_old_logs]) *)

(** [s.startswith(pre)], with what follows the prefix. *)
Fixpoint strip_prefix (pre s : string) : option string :=
  match pre, s with
  | EmptyString, _ => Some s
  | String a pre', String b s' =>
      if Ascii.eqb a b then strip_prefix pre' s' else None
  | String _ _, EmptyString => None
  end.

Fixpoint has_char (c : ascii) (s : string) : bool :=
  match s with
  | EmptyString => false
  | String a s' => Ascii.eqb a c || has_char c s'
  end.

(** [s.endswith(suf)] *)
Fixpoint ends_with (suf s : string) : bool :=
  String.eqb s suf ||
  match s with
  | EmptyString => false
  | String _ s' => ends_with suf s'
  end.

(** [s.rfind(c)] *)
Fixpoint rfind (c : ascii) (s : string) : option nat :=
  match s with
  | EmptyString => None
  | String a s' =>
      match rfind c s' with
      | Some i => Some (S i)
      | None => if Ascii.eqb a c then Some O else None
      end
  end.

(** [PurePath.stem]: the name without its last suffix; a dot that
    leads or ends the name starts no suffix. *)
Definition stem (nm : string) : string :=
  match rfind "." nm with
  | Some i =>
      if (Nat.ltb 0 i && Nat.ltb i (String.length nm - 1))%bool
      then substring 0 i nm
      else nm
  | None => nm
  end.

(** [s.split(c)[0]] *)
Fixpoint before (c : ascii) (s : string) : string :=
  match s with
  | EmptyString => EmptyString
  | String a s' => if Ascii.eqb a c then EmptyString else String a (before c s')
  end.

(** A record handed to the module's logger. *)
Inductive LogRecord :=
| LogWarning (msg : string)
| LogInfo (msg : string).

(** The loop's state: the paths present in the directory, the records
    logged so far, and the path at which [unlink] has raised, if it
    has. *)
Record Sweep := mkSweep {
  present : gset string;
  logged : list LogRecord;
  raised_at : option string
}.

Section OldLogs.
Variable LOGS : string.

(** [datetime.strptime(prefix, LOG_FILENAME_FORMAT_PREFIX)] followed by
    [datetime.now() - log_date >= timedelta(days=MAX_LOGFILE_AGE_DAYS)]:
    [None] is the [ValueError] of a prefix that is no date, and the
    clock is read as one instant over the run. *)
Variable expired : string → option bool.

(** The paths on which [Path.unlink] raises (an [OSError]): a
    directory, or a file the process may not remove. It removes every
    other path it is given. *)
Variable unlink_raises : string → bool.

(** The name under which a path is an entry of the directory [LOGS]. *)
Definition entry_name (p : string) : option string :=
  match strip_prefix (LOGS ++ "/") p with
  | Some nm => if has_char "/" nm then None else Some nm
  | None => None
  end.

(** [Path(LOGS).glob('*.txt')] on the paths present: the entries of
    [LOGS] whose name ends in [.txt], in the order the directory lists
    them, each with its name. *)
Definition glob_txt (entries : gset string) : list (string * string) :=
  omap (λ p, match entry_name p with
             | Some nm => if ends_with ".txt" nm then Some (p, nm) else None
             | None => None
             end) (elements entries).

(** What the loop logs for an entry of that name: a warning for a
    prefix that is no date, the removal notice (a plain string, not an
    f-string) for one that has reached the age, nothing otherwise. *)
Definition record_of (nm : string) : option LogRecord :=
  match expired (before "_" (stem nm)) with
  | None => Some (LogWarning (LOGS +:+ " contains a problematic filename: " +:+ nm))
  | Some true => Some (LogInfo "Removing expired log file: {path.name}")
  | Some false => None
  end.

(** The body of the loop for one path. The [ValueError] of [strptime]
    is caught and answered with a warning; an error of [unlink] is not
    caught, so once it has raised the loop is left and nothing more
    happens. The state says which paths are present and which records
    have gone to the logger; what the handlers then write, and into
    which file, is theirs and not part of it. *)
Definition visit_log (st : Sweep) (pn : string * string) : Sweep :=
  match raised_at st with
  | Some _ => st
  | None =>
      let prefix := before "_" (stem pn.2) in
      match expired prefix with
      | None =>
          mkSweep (present st)
            (logged st ++
               [LogWarning (LOGS +:+ " contains a problematic filename: " +:+ pn.2)])%list
            None
      | Some age_reached =>
          if age_reached then
            let records :=
              (logged st ++ [LogInfo "Removing expired log file: {path.name}"])%list in
            if unlink_raises pn.1
            then mkSweep (present st) records (Some pn.1)
            else mkSweep (present st ∖ {[pn.1]}) records None
          else st
      end
  end.

Definition _delete_old_logs (entries : gset string) : Sweep :=
  foldl visit_log (mkSweep entries [] None) (glob_txt entries).

(** Whether the loop asks to unlink a path. *)
Definition unlinked (p : string) : bool :=
  match entry_name p with
  | Some nm =>
      ends_with ".txt" nm &&
      match expired (before "_" (stem nm)) with
      | Some true => true
      | _ => false
      end
  | None => false
  end.

End OldLogs.

(** ** Concrete states *)
Module Fixtures.

Definition member (i : Z) : Member :=
  {| m_id := i; m_mention := "<@" ++ pretty i ++ ">"; m_colour := 0;
     m_str := "user" ++ pretty i |}.

Definition by_user (i : Z) : Interaction := {| user := member i |}.

(** A fresh database and a guild that answers. *)
Definition s0 : State SimpleGuild.t := mkState empty_db SimpleGuild.fresh [].

Definition channel_100 : Channel :=
  {| ch_id := 100; ch_name := "report-ticket-1"; ch_category := 9 |}.

(** One open report, ticket 1 in channel 100. *)
Definition one_report : Database :=
  {| reports :=
       {| rows := [ {| ticket_id := 1; user_id := SqlInt 7;
                       accused_user_id := Some (SqlInt 8);
                       channel_id := SqlInt 100; msg := SqlText "spam" |} ];
          seq := 1 |};
     suggestions := empty_table |}.

Definition s_open : State SimpleGuild.t :=
  mkState one_report (SimpleGuild.mk [channel_100] 101 true) [].

(** The same, with the guild refusing requests. *)
Definition s_offline : State SimpleGuild.t :=
  mkState one_report (SimpleGuild.mk [channel_100] 101 false) [].

(** A suggestion table emptied by closing its only ticket: no rows,
    id 1 already handed out. *)
Definition s_emptied : State SimpleGuild.t :=
  mkState {| reports := empty_table; suggestions := {| rows := []; seq := 1 |} |}
          SimpleGuild.fresh [].

(** A fresh database with the guild refusing requests. *)
Definition s0_offline : State SimpleGuild.t :=
  mkState empty_db (SimpleGuild.mk [] 100 false) [].

(** A row whose channel was never set. *)
Definition s_channelless : State SimpleGuild.t :=
  mkState
    {| reports :=
         {| rows := [ {| ticket_id := 1; user_id := SqlInt 7;
                         accused_user_id := Some (SqlInt 8);
                         channel_id := SqlNull; msg := SqlText "spam" |} ];
            seq := 1 |};
       suggestions := empty_table |}
    SimpleGuild.fresh [].

(** A guild in which "alice" is member 1 and "bob" is member 2. *)
Definition lookup_member (_ : Interaction) (who : string) (_ : SimpleGuild.t)
  : option Member :=
  if String.eqb who "alice" then Some (member 1)
  else if String.eqb who "bob" then Some (member 2)
  else None.

(** A clock at which the date "old" has reached the maximum age, the
    date "new" has not, and nothing else is a date. *)
Definition reached (prefix : string) : option bool :=
  if String.eqb prefix "old" then Some true
  else if String.eqb prefix "new" then Some false
  else None.

(** A directory in which [unlink] raises on nothing, having no
    subdirectories, and one in which [logs/old.txt] is itself a
    directory, so that [unlink] raises on it. *)
Definition no_dirs (_ : string) : bool := false.
Definition old_is_dir (p : string) : bool := String.eqb p "logs/old.txt".

End Fixtures.

(** ** Facts about the store *)

Open Scope list_scope.

Lemma get_set_table_eq d t tb : get_table (set_table d t tb) t = tb.
Proof. by destruct t. Qed.

Lemma get_set_table_ne d t t' tb :
  t ≠ t' → get_table (set_table d t tb) t' = get_table d t'.
Proof. by destruct t, t'. Qed.

Lemma greatest_id_bound rs r :
  r ∈ rs → ∃ m, greatest_id rs = Some m ∧ ticket_id r ≤ m.
Proof.
  induction rs as [|r0 rs IH]; [by intros ?%elem_of_nil|].
  intros [->|Hin]%elem_of_cons; simpl.
  - destruct (greatest_id rs); eexists; split; [done|lia|done|lia].
  - destruct (IH Hin) as (m & -> & Hle). eexists; split; [done|lia].
Qed.

Lemma greatest_id_snoc rs r :
  greatest_id (rs ++ [r]) =
    Some (match greatest_id rs with
          | None => ticket_id r
          | Some m => Z.max m (ticket_id r)
          end).
Proof.
  induction rs as [|r0 rs IH]; simpl; [done|].
  rewrite IH. destruct (greatest_id rs); f_equal; lia.
Qed.

Lemma greatest_id_ids rs rs' :
  map ticket_id rs = map ticket_id rs' → greatest_id rs = greatest_id rs'.
Proof.
  revert rs'. induction rs as [|r rs IH]; intros [|r' rs']; simpl; try done.
  intros [= -> Hm]. by rewrite (IH _ Hm).
Qed.

Lemma next_id_above tb r : r ∈ rows tb → ticket_id r < next_id tb.
Proof.
  intros (m & Hm & Hle)%greatest_id_bound. unfold next_id. rewrite Hm. simpl. lia.
Qed.

Lemma next_id_ids tb tb' :
  ids tb = ids tb' → seq tb = seq tb' → next_id tb = next_id tb'.
Proof.
  unfold ids, next_id. intros Hi ->. by rewrite (greatest_id_ids _ _ Hi).
Qed.

Lemma sql_insert_spec t vals tb :
  sql_insert t vals tb =
    (λ r, {| rows := rows tb ++ [r]; seq := next_id tb |})
      <$> inserted_row t vals (next_id tb).
Proof.
  unfold sql_insert, inserted_row.
  destruct t, vals as [|u [|a [|m [|? ?]]]]; reflexivity.
Qed.

Lemma inserted_row_id t vals i r : inserted_row t vals i = Some r → ticket_id r = i.
Proof.
  unfold inserted_row.
  destruct t, vals as [|u [|a [|m [|? ?]]]]; intros [= <-]; reflexivity.
Qed.

Lemma greatest_id_fresh tb r :
  ticket_id r = next_id tb → greatest_id (rows tb ++ [r]) = Some (next_id tb).
Proof.
  intros Hr. rewrite greatest_id_snoc, Hr. f_equal.
  unfold next_id. destruct (greatest_id (rows tb)); simpl; lia.
Qed.

Lemma next_id_after_insert tb r :
  ticket_id r = next_id tb →
  next_id {| rows := rows tb ++ [r]; seq := next_id tb |} = next_id tb + 1.
Proof.
  intros Hr. unfold next_id at 1. simpl. rewrite (greatest_id_fresh _ _ Hr). simpl. lia.
Qed.

Lemma sql_last_id_after_insert t vals tb tb' :
  sql_insert t vals tb = Some tb' → sql_last_id tb' = [[SqlInt (next_id tb)]].
Proof.
  rewrite sql_insert_spec. destruct (inserted_row _ _ _) as [r|] eqn:Hr; [|done].
  intros [= <-]. unfold sql_last_id. simpl.
  by rewrite (greatest_id_fresh _ _ (inserted_row_id _ _ _ _ Hr)).
Qed.

Lemma update_other_rows c i rs :
  (∀ r, r ∈ rs → ticket_id r ≠ i) →
  map (λ r, if bool_decide (SqlInt (ticket_id r) = SqlInt i)
            then with_channel c r else r) rs = rs.
Proof.
  induction rs as [|r rs IH]; intros Hne; simpl; [done|].
  rewrite IH by (intros; apply Hne; by right).
  rewrite bool_decide_eq_false_2; [done|].
  intros [= Heq]. by apply (Hne r); [left|].
Qed.

Lemma sql_update_ids c i tb : ids (sql_update_channel c i tb) = ids tb.
Proof.
  unfold ids, sql_update_channel. simpl. rewrite map_map.
  apply map_ext. intros r. by case_bool_decide.
Qed.

Lemma sql_update_after_insert t vals tb tb' c :
  sql_insert t vals tb = Some tb' →
  ∃ r, inserted_row t vals (next_id tb) = Some r ∧
       rows tb' = rows tb ++ [r] ∧
       sql_update_channel c (SqlInt (next_id tb)) tb' =
         {| rows := rows tb ++ [with_channel c r]; seq := next_id tb |}.
Proof.
  rewrite sql_insert_spec. destruct (inserted_row _ _ _) as [r|] eqn:Hr; [|done].
  intros [= <-]. exists r. split; [done|]. split; [done|].
  unfold sql_update_channel; simpl. f_equal.
  rewrite map_app. simpl. f_equal.
  - apply update_other_rows. intros r' Hin Heq.
    pose proof (next_id_above _ _ Hin). lia.
  - rewrite bool_decide_eq_true_2; [done|].
    by rewrite (inserted_row_id _ _ _ _ Hr).
Qed.

Lemma select_absent i rs :
  (∀ r, r ∈ rs → ticket_id r ≠ i) →
  filter (λ r, SqlInt (ticket_id r) = SqlInt i) rs = [].
Proof.
  induction rs as [|r rs IH]; intros Hne; [done|].
  rewrite filter_cons_False.
  - apply IH. intros; apply Hne; by right.
  - intros [= Heq]. by apply (Hne r); [left|].
Qed.

Lemma select_after_delete i tb :
  sql_select_channel i (sql_delete i tb) = [].
Proof.
  unfold sql_select_channel, sql_delete. simpl.
  induction (rows tb) as [|r rs IH]; [done|].
  destruct (decide (SqlInt (ticket_id r) = i)) as [Heq|Hne].
  - by rewrite filter_cons_False by (intros Hn; by apply Hn).
  - rewrite filter_cons_True by done. by rewrite filter_cons_False.
Qed.

Lemma select_rows_shape i tb :
  sql_select_channel i tb = [] ∨
  ∃ c rest, sql_select_channel i tb = [c] :: rest.
Proof.
  unfold sql_select_channel.
  destruct (filter _ (rows tb)) as [|r rs]; [by left|right]. simpl. eauto.
Qed.

Lemma find_by_id_None d ty i :
  find_by_id d ty i = None ↔
  sql_select_channel (SqlInt i) (get_table d (table_of ty)) = [].
Proof.
  unfold find_by_id.
  destruct (select_rows_shape (SqlInt i) (get_table d (table_of ty)))
    as [->|(c & rest & ->)]; done.
Qed.

Lemma find_by_id_Some d ty i c :
  find_by_id d ty i = Some c ↔
  ∃ rest, sql_select_channel (SqlInt i) (get_table d (table_of ty)) = [c] :: rest.
Proof.
  unfold find_by_id.
  destruct (select_rows_shape (SqlInt i) (get_table d (table_of ty)))
    as [->|(c' & rest & ->)]; split.
  - done.
  - by intros [? ?].
  - intros [= ->]. eauto.
  - by intros [? [= ->]].
Qed.

(** ** The ticket workflow *)

Section Workflow.
Context {G : Type} `{ChannelService G}.
Variable tickets_category : Z.

(** C1. A REPORT whose accused is the reporting user is answered with
    the self-report rebuff and nothing else happens: the store and
    the guild are as before, and the only request made of any
    collaborator is that one follow-up message (no statement is
    executed, no channel is asked for). *)
Theorem create_ticket_self_report (interaction : Interaction) (args : list Arg)
    (accused : Member) (s : State G) :
  args !! 1%nat = Some (AMember accused) →
  m_id accused = m_id (user interaction) →
  ∃ s', create_ticket tickets_category interaction REPORT args s = (Returned tt, s') ∧
        db s' = db s ∧
        guild s' = guild s ∧
        trace s' = trace s ++ [EvFollowup self_report_msg true].
Proof.
  intros Harg Hid.
  exists (mkState (db s) (guild s) (trace s ++ [EvFollowup self_report_msg true])).
  split; [|done].
  unfold create_ticket, bind, lift, index. rewrite Harg. simpl.
  by rewrite bool_decide_eq_true_2.
Qed.

(** C5. Closing an id that the type's table does not hold answers
    the user that there is no such ticket and changes nothing: the
    store and the guild are as before, and beyond the lookup itself
    only the reply is issued (no delete, no channel teardown). *)
Theorem close_ticket_not_found (interaction : Interaction)
    (ticket_type : TicketType) (i : Z) (s : State G) :
  i ∉ ids (get_table (db s) (table_of ticket_type)) →
  ∃ s', close_ticket interaction ticket_type i s = (Returned tt, s') ∧
        db s' = db s ∧
        guild s' = guild s ∧
        trace s' = trace s ++
          [EvFetchall (SelectChannel (table_of ticket_type)) [SqlInt i] [];
           EvRespond (not_found_msg ticket_type i) true].
Proof.
  intros Hnotin.
  assert (∀ r, r ∈ rows (get_table (db s) (table_of ticket_type)) → ticket_id r ≠ i)
    as Habs.
  { intros r Hr <-. apply Hnotin. unfold ids. apply list_elem_of_fmap. eauto. }
  exists (mkState (db s) (guild s)
            (trace s ++
               [EvFetchall (SelectChannel (table_of ticket_type)) [SqlInt i] [];
                EvRespond (not_found_msg ticket_type i) true])).
  split; [|done].
  unfold close_ticket, bind, fetch_channel, sql_select_channel.
  rewrite (select_absent _ _ Habs). simpl. unfold emit. simpl.
  by rewrite <- app_assoc.
Qed.

(** What [close_ticket] has done by the time it turns to the guild,
    when the lookup finds the ticket. *)
Lemma close_ticket_found (interaction : Interaction) (ticket_type : TicketType)
    (i : Z) (c : SqlValue) (s : State G) :
  find_by_id (db s) ticket_type i = Some c →
  let t := table_of ticket_type in
  close_ticket interaction ticket_type i s =
    bind (delete_ticket_channel c) (λ _, emit (EvRespond closed_msg true))
      (mkState (set_table (db s) t (sql_delete (SqlInt i) (get_table (db s) t)))
               (guild s)
               (trace s ++
                  [EvFetchall (SelectChannel t) [SqlInt i]
                     (sql_select_channel (SqlInt i) (get_table (db s) t));
                   EvExecute (DeleteTicket t) [SqlInt i];
                   EvCommit])).
Proof.
  intros [rest Hsel]%find_by_id_Some t. subst t.
  unfold close_ticket, bind at 1, fetch_channel.
  cbv beta iota zeta. rewrite Hsel.
  unfold obind, index. simpl.
  unfold bind at 1, execute_delete. cbv beta iota zeta.
  unfold bind at 1, commit, emit at 1. cbv beta iota zeta. simpl.
  by rewrite <- !app_assoc.
Qed.

Lemma find_by_id_after_delete d ticket_type i :
  find_by_id
    (set_table d (table_of ticket_type)
       (sql_delete (SqlInt i) (get_table d (table_of ticket_type))))
    ticket_type i = None.
Proof.
  apply find_by_id_None. by rewrite get_set_table_eq, select_after_delete.
Qed.

(** C6. When [close_ticket] runs to its end on a ticket that exists,
    a lookup of the same type and id afterwards finds nothing: the
    table holds exactly the rows with other ids, and the user has
    been told the ticket is closed. *)
Theorem close_then_find (interaction : Interaction) (ticket_type : TicketType)
    (i : Z) (c : SqlValue) (s s' : State G) :
  find_by_id (db s) ticket_type i = Some c →
  close_ticket interaction ticket_type i s = (Returned tt, s') →
  find_by_id (db s') ticket_type i = None ∧
  rows (get_table (db s') (table_of ticket_type)) =
    filter (λ r, SqlInt (ticket_id r) ≠ SqlInt i)
           (rows (get_table (db s) (table_of ticket_type))) ∧
  last (trace s') = Some (EvRespond closed_msg true).
Proof.
  intros Hfind. rewrite (close_ticket_found _ _ _ _ _ Hfind).
  unfold bind, delete_ticket_channel. cbn beta iota zeta. simpl.
  destruct (get_channel c (guild s)) as [ch|]; [|done].
  destruct (delete_channel ch (guild s)) as [g'|]; [|done].
  unfold emit. simpl. intros [= <-]. simpl.
  split; [apply find_by_id_after_delete|]. split.
  - by rewrite get_set_table_eq.
  - by rewrite last_snoc.
Qed.

(** C2 (as the code has it). For every ticket that exists,
    [close_ticket] executes and commits the row delete before it
    turns to the channel: whatever the teardown then does, the row
    is gone, and everything issued after the commit is the teardown
    and the reply, not a statement. *)
Theorem close_ticket_deletes_row_first (interaction : Interaction)
    (ticket_type : TicketType) (i : Z) (c : SqlValue) (s : State G) :
  find_by_id (db s) ticket_type i = Some c →
  let t := table_of ticket_type in
  let s' := snd (close_ticket interaction ticket_type i s) in
  find_by_id (db s') ticket_type i = None ∧
  ∃ rest,
    trace s' = trace s ++
      [EvFetchall (SelectChannel t) [SqlInt i]
         (sql_select_channel (SqlInt i) (get_table (db s) t));
       EvExecute (DeleteTicket t) [SqlInt i];
       EvCommit] ++ rest ∧
    ∀ e, e ∈ rest →
      (∃ ch reason, e = EvDeleteChannel ch reason) ∨ e = EvRespond closed_msg true.
Proof.
  intros Hfind t s'. subst s'. rewrite (close_ticket_found _ _ _ _ _ Hfind).
  fold t. unfold bind, delete_ticket_channel. cbn beta iota zeta. simpl.
  destruct (get_channel c (guild s)) as [ch|]; simpl.
  - destruct (delete_channel ch (guild s)) as [g'|]; simpl.
    + split; [apply find_by_id_after_delete|].
      exists [EvDeleteChannel ch "Ticket closed"; EvRespond closed_msg true].
      split; [by rewrite <- !app_assoc|].
      intros e [->|[->|[]%elem_of_nil]%elem_of_cons]%elem_of_cons; eauto.
    + split; [apply find_by_id_after_delete|].
      exists [EvDeleteChannel ch "Ticket closed"].
      split; [by rewrite <- !app_assoc|].
      intros e [->|[]%elem_of_nil]%elem_of_cons; eauto.
  - split; [apply find_by_id_after_delete|].
    exists []. split; [done|].
    by intros e ?%elem_of_nil.
Qed.

(** C8. The summary lists its fields in a fixed order: for a REPORT
    the accuser, the accused, the reason; for a SUGGESTION the
    submitter, the suggestion text. *)
Theorem create_ticket_embed_order (i : SqlValue) (m0 m1 : Member) (a : Arg) :
  (∃ e, create_ticket_embed REPORT i [AMember m0; AMember m1; a] = Returned e ∧
        e_fields e =
          [ {| f_name := "Accuser"; f_value := m_mention m0; f_inline := false |};
            {| f_name := "Accusing"; f_value := m_mention m1; f_inline := false |};
            {| f_name := "Reason Given"; f_value := arg_str a; f_inline := false |} ]) ∧
  (∃ e, create_ticket_embed SUGGESTION i [AMember m0; a] = Returned e ∧
        e_fields e =
          [ {| f_name := "Suggestion From"; f_value := m_mention m0; f_inline := false |};
            {| f_name := "Suggestion/Feature Request"; f_value := arg_str a;
               f_inline := false |} ]).
Proof. split; eexists; (split; [reflexivity|reflexivity]). Qed.

(** *** Creation, step by step *)

Lemma set_set_table d t tb tb' : set_table (set_table d t tb) t tb' = set_table d t tb'.
Proof. by destruct t. Qed.

Lemma write_ticket_rejected (ticket_type : TicketType) (args : list Arg) (s : State G) :
  let t := table_of ticket_type in
  sql_insert t (map normalize args) (get_table (db s) t) = None →
  write_ticket tickets_category ticket_type args s =
    (Raised ProgrammingError,
     mkState (db s) (guild s)
             (trace s ++ [EvExecute (InsertTicket t) (map normalize args)])).
Proof.
  intros t Hins. unfold write_ticket, bind at 1, execute_insert. fold t.
  cbv beta iota zeta. by rewrite Hins.
Qed.

Lemma write_ticket_inserted (ticket_type : TicketType) (args : list Arg)
    (s : State G) (tb' : Table) :
  let t := table_of ticket_type in
  let i := next_id (get_table (db s) t) in
  sql_insert t (map normalize args) (get_table (db s) t) = Some tb' →
  write_ticket tickets_category ticket_type args s =
    bind (create_ticket_channel tickets_category (lower (name ticket_type)) (SqlInt i))
      (λ channel,
         bind (execute_update t (SqlInt (ch_id channel)) (SqlInt i))
           (λ _, bind commit
              (λ _, bind (lift (create_ticket_embed ticket_type (SqlInt i) args))
                 (λ embed, emit (EvSend channel embed)))))
      (mkState (set_table (db s) t tb') (guild s)
               (trace s ++ insert_events t (map normalize args) i)).
Proof.
  intros t i Hins. unfold write_ticket. fold t.
  unfold bind at 1, execute_insert. cbv beta iota zeta. rewrite Hins.
  unfold bind at 1, commit, emit at 1. cbv beta iota zeta.
  unfold bind at 1, fetch_last_id. cbv beta iota zeta.
  cbn [db guild trace]. rewrite get_set_table_eq.
  rewrite (sql_last_id_after_insert _ _ _ _ Hins). fold i.
  unfold bind at 1, lift at 1, index at 1. cbn [lookup list_lookup].
  unfold bind at 1, lift at 1, index at 1. cbn [lookup list_lookup].
  unfold insert_events. by rewrite <- !app_assoc.
Qed.

Lemma write_ticket_unprovisioned (ticket_type : TicketType) (args : list Arg)
    (s : State G) (tb' : Table) :
  let t := table_of ticket_type in
  let i := next_id (get_table (db s) t) in
  let nm := (lower (name ticket_type) ++ "-ticket-" ++ pretty i)%string in
  sql_insert t (map normalize args) (get_table (db s) t) = Some tb' →
  create_text_channel nm tickets_category (guild s) = None →
  write_ticket tickets_category ticket_type args s =
    (Raised HTTPException,
     mkState (set_table (db s) t tb') (guild s)
             (trace s ++ insert_events t (map normalize args) i
                ++ [EvCreateChannel nm tickets_category])).
Proof.
  intros t i nm Hins Hprov.
  rewrite (write_ticket_inserted _ _ _ _ Hins). fold t i.
  unfold bind at 1, create_ticket_channel. cbn [db guild trace sql_str].
  fold nm. rewrite Hprov. by rewrite <- app_assoc.
Qed.

Lemma write_ticket_provisioned (ticket_type : TicketType) (args : list Arg)
    (s : State G) (tb' : Table) (ch : Channel) (g' : G) :
  let t := table_of ticket_type in
  let i := next_id (get_table (db s) t) in
  let nm := (lower (name ticket_type) ++ "-ticket-" ++ pretty i)%string in
  sql_insert t (map normalize args) (get_table (db s) t) = Some tb' →
  create_text_channel nm tickets_category (guild s) = Some (ch, g') →
  write_ticket tickets_category ticket_type args s =
    (match create_ticket_embed ticket_type (SqlInt i) args with
     | Returned _ => Returned tt
     | Raised e => Raised e
     end,
     mkState (set_table (db s) t
                (sql_update_channel (SqlInt (ch_id ch)) (SqlInt i) tb'))
             g'
             (trace s ++ insert_events t (map normalize args) i
                ++ [EvCreateChannel nm tickets_category;
                    EvExecute (UpdateChannel t) [SqlInt (ch_id ch); SqlInt i];
                    EvCommit]
                ++ match create_ticket_embed ticket_type (SqlInt i) args with
                   | Returned e => [EvSend ch e]
                   | Raised _ => []
                   end)).
Proof.
  intros t i nm Hins Hprov.
  rewrite (write_ticket_inserted _ _ _ _ Hins). fold t i.
  unfold bind at 1, create_ticket_channel. cbn [db guild trace sql_str].
  fold nm. rewrite Hprov.
  unfold bind at 1, execute_update. cbv beta iota zeta. cbn [db guild trace].
  rewrite get_set_table_eq, set_set_table.
  unfold bind at 1, commit, emit at 1. cbv beta iota zeta. cbn [db guild trace].
  unfold bind at 1, lift.
  destruct (create_ticket_embed ticket_type (SqlInt i) args) as [e|x].
  - unfold emit. cbn [db guild trace]. f_equal. f_equal.
    rewrite <- !app_assoc. reflexivity.
  - f_equal. f_equal. rewrite <- !app_assoc. reflexivity.
Qed.

Lemma create_ticket_guarded (interaction : Interaction) (ticket_type : TicketType)
    (args : list Arg) (s : State G) :
  self_report interaction ticket_type args = false →
  create_ticket tickets_category interaction ticket_type args s =
    match ticket_type, args !! 1%nat with
    | REPORT, None => (Raised IndexError, s)
    | _, _ => write_ticket tickets_category ticket_type args s
    end.
Proof.
  unfold self_report, create_ticket, bind, lift, index.
  destruct ticket_type; [|done].
  destruct (args !! 1%nat) as [a1|]; [|done]. by intros ->.
Qed.

Lemma find_after_update (d : Database) (ticket_type : TicketType)
    (vals : list SqlValue) (tb' : Table) (c : SqlValue) :
  let t := table_of ticket_type in
  let i := next_id (get_table d t) in
  sql_insert t vals (get_table d t) = Some tb' →
  find_by_id (set_table d t (sql_update_channel c (SqlInt i) tb')) ticket_type i
    = Some c.
Proof.
  intros t i Hins. subst i.
  destruct (sql_update_after_insert _ _ _ _ c Hins) as (r & Hr & _ & ->).
  apply find_by_id_Some. fold t. rewrite get_set_table_eq.
  unfold sql_select_channel. cbn [rows]. rewrite filter_app.
  rewrite select_absent.
  - rewrite filter_cons_True by (simpl; f_equal; by eapply inserted_row_id).
    simpl. eauto.
  - intros r' Hin Heq. pose proof (next_id_above _ _ Hin) as Hlt. lia.
Qed.

(** C4. When a creation that is not turned away as a self-report
    runs to its end, the guild has returned a channel for the name
    built from the new id, and a lookup of that id right afterwards
    yields that channel's id. The id is the one the last-id query
    answered. *)
Theorem create_then_find (interaction : Interaction) (ticket_type : TicketType)
    (args : list Arg) (s s' : State G) :
  self_report interaction ticket_type args = false →
  create_ticket tickets_category interaction ticket_type args s = (Returned tt, s') →
  let t := table_of ticket_type in
  let i := next_id (get_table (db s) t) in
  ∃ ch,
    create_text_channel (lower (name ticket_type) ++ "-ticket-" ++ pretty i)%string
      tickets_category (guild s) = Some (ch, guild s') ∧
    EvFetchall (SelectLastId t) [] [[SqlInt i]] ∈ trace s' ∧
    find_by_id (db s') ticket_type i = Some (SqlInt (ch_id ch)).
Proof.
  intros Hguard Hrun t i. rewrite (create_ticket_guarded _ _ _ _ Hguard) in Hrun.
  assert (write_ticket tickets_category ticket_type args s = (Returned tt, s'))
    as Hw.
  { destruct ticket_type; [|done]. by destruct (args !! 1%nat). }
  clear Hrun.
  destruct (sql_insert t (map normalize args) (get_table (db s) t)) as [tb'|] eqn:Hins;
    [|by rewrite (write_ticket_rejected _ _ _ Hins) in Hw].
  destruct (create_text_channel
              (lower (name ticket_type) ++ "-ticket-" ++ pretty i)%string
              tickets_category (guild s)) as [[ch g']|] eqn:Hprov;
    [|by rewrite (write_ticket_unprovisioned _ _ _ _ Hins Hprov) in Hw].
  rewrite (write_ticket_provisioned _ _ _ _ _ _ Hins Hprov) in Hw.
  injection Hw as _ <-. exists ch. cbn [db guild trace]. split; [done|]. split.
  - apply elem_of_app. right. rewrite !elem_of_cons. auto.
  - by apply (find_after_update _ _ _ _ _ Hins).
Qed.

(** C7 (as the code has it). A SUGGESTION from user 42 with the text
    "add dark mode", on a suggestion table that has never held a row
    (no rows and no id handed out yet), gets id 1, asks the guild for a
    channel named suggestion-ticket-1, and posts to it a summary whose
    fields are "Suggestion From" with the user's mention (not the bare
    id) and "Suggestion/Feature Request" with the text, in that
    order. *)
Theorem suggestion_scenario (u : Member) (s : State G) (ch : Channel) (g' : G) :
  m_id u = 42 →
  get_table (db s) user_suggestion_tickets = empty_table →
  create_text_channel "suggestion-ticket-1" tickets_category (guild s) = Some (ch, g') →
  ∃ s',
    create_ticket tickets_category {| user := u |} SUGGESTION
      [AMember u; AText "add dark mode"] s = (Returned tt, s') ∧
    rows (get_table (db s') user_suggestion_tickets) =
      [ {| ticket_id := 1; user_id := SqlInt 42; accused_user_id := None;
           channel_id := SqlInt (ch_id ch); msg := SqlText "add dark mode" |} ] ∧
    trace s' = trace s ++
      [ EvExecute (InsertTicket user_suggestion_tickets)
          [SqlInt 42; SqlText "add dark mode"];
        EvCommit;
        EvFetchall (SelectLastId user_suggestion_tickets) [] [[SqlInt 1]];
        EvCreateChannel "suggestion-ticket-1" tickets_category;
        EvExecute (UpdateChannel user_suggestion_tickets) [SqlInt (ch_id ch); SqlInt 1];
        EvCommit;
        EvSend ch
          {| e_colour := m_colour u;
             e_title := "Suggestion Ticket #1";
             e_fields :=
               [ {| f_name := "Suggestion From"; f_value := m_mention u;
                    f_inline := false |};
                 {| f_name := "Suggestion/Feature Request";
                    f_value := "add dark mode"; f_inline := false |} ] |} ].
Proof.
  intros Hu Hempty Hprov. eexists. split.
  - rewrite create_ticket_guarded by done. cbv beta iota.
    erewrite write_ticket_provisioned.
    + reflexivity.
    + cbn [table_of]. rewrite Hempty. reflexivity.
    + cbn [table_of]. rewrite Hempty. exact Hprov.
  - cbn [db guild trace table_of]. rewrite get_set_table_eq, Hempty.
    cbn [map normalize]. rewrite Hu. split; reflexivity.
Qed.

(** *** Sequences of creations *)

Lemma sql_insert_ids t vals tb tb' :
  sql_insert t vals tb = Some tb' →
  ids tb' = ids tb ++ [next_id tb] ∧ next_id tb' = next_id tb + 1.
Proof.
  rewrite sql_insert_spec. destruct (inserted_row _ _ _) as [r|] eqn:Hr; [|done].
  intros [= <-]. pose proof (inserted_row_id _ _ _ _ Hr) as Hid. split.
  - unfold ids. cbn [rows]. by rewrite map_app, <- Hid.
  - by apply next_id_after_insert.
Qed.

Lemma sql_update_next c i tb : next_id (sql_update_channel c i tb) = next_id tb.
Proof. apply next_id_ids; [apply sql_update_ids|done]. Qed.

Lemma fetched_ids_app t tr1 tr2 :
  fetched_ids t (tr1 ++ tr2) = fetched_ids t tr1 ++ fetched_ids t tr2.
Proof. apply omap_app. Qed.

Lemma fetched_insert_events t vals i :
  fetched_ids t (insert_events t vals i) = [[[SqlInt i]]].
Proof. unfold insert_events, fetched_ids. simpl. by rewrite decide_True. Qed.

Lemma advanced_refl t (s s1 : State G) :
  db s1 = db s → fetched_ids t (trace s1) = fetched_ids t (trace s) →
  advanced t [] s s1.
Proof.
  intros Hdb Htr. unfold advanced. rewrite Hdb, Htr, !app_nil_r. simpl.
  repeat split; lia.
Qed.

Lemma advanced_trans t k k' (s s1 s2 : State G) :
  advanced t k s s1 → advanced t k' s1 s2 → advanced t (k ++ k') s s2.
Proof.
  intros (Hf & Hi & Hn) (Hf' & Hi' & Hn'). unfold advanced.
  rewrite Hf', Hf, Hi', Hi, Hn', Hn, fmap_app, length_app, <- !app_assoc.
  repeat split; lia.
Qed.

Lemma write_ticket_advanced (ticket_type : TicketType) (args : list Arg)
    (s : State G) :
  let t := table_of ticket_type in
  advanced t
    (match sql_insert t (map normalize args) (get_table (db s) t) with
     | Some _ => [next_id (get_table (db s) t)]
     | None => []
     end)
    s (snd (write_ticket tickets_category ticket_type args s)).
Proof.
  intros t.
  destruct (sql_insert t (map normalize args) (get_table (db s) t))
    as [tb'|] eqn:Hins.
  - destruct (sql_insert_ids _ _ _ _ Hins) as [Hids Hnext].
    destruct (create_text_channel
                (lower (name ticket_type) ++ "-ticket-" ++
                   pretty (next_id (get_table (db s) t)))%string
                tickets_category (guild s)) as [[ch g']|] eqn:Hprov.
    + rewrite (write_ticket_provisioned _ _ _ _ _ _ Hins Hprov). fold t.
      unfold advanced. cbn [snd db guild trace].
      rewrite get_set_table_eq, sql_update_ids, sql_update_next, Hids, Hnext.
      rewrite !fetched_ids_app, fetched_insert_events.
      split; [|done].
      destruct (create_ticket_embed _ _ _); simpl; by rewrite ?app_nil_r.
    + rewrite (write_ticket_unprovisioned _ _ _ _ Hins Hprov). fold t.
      unfold advanced. cbn [snd db guild trace].
      rewrite get_set_table_eq, Hids, Hnext.
      rewrite !fetched_ids_app, fetched_insert_events.
      split; [|done]. simpl. by rewrite ?app_nil_r.
  - rewrite (write_ticket_rejected _ _ _ Hins). fold t.
    apply advanced_refl; [done|]. cbn [snd trace].
    rewrite fetched_ids_app. simpl. by rewrite ?app_nil_r.
Qed.

Lemma create_ticket_advanced (interaction : Interaction) (ticket_type : TicketType)
    (args : list Arg) (s : State G) :
  let t := table_of ticket_type in
  advanced t
    (if inserts ticket_type (interaction, args)
     then [next_id (get_table (db s) t)] else [])
    s (snd (create_ticket tickets_category interaction ticket_type args s)).
Proof.
  intros t.
  destruct (self_report interaction ticket_type args) eqn:Hguard.
  - unfold self_report in Hguard. destruct ticket_type; [|done].
    destruct (args !! 1%nat) as [a1|] eqn:Ha1; [|done].
    unfold create_ticket, bind, lift, index. rewrite Ha1, Hguard.
    replace (inserts REPORT (interaction, args)) with false.
    + apply advanced_refl; [done|]. unfold emit. cbn [snd trace].
      rewrite fetched_ids_app. simpl. by rewrite ?app_nil_r.
    + unfold inserts. cbn [fst snd].
      destruct args as [|? [|? [|? [|? ?]]]]; try done.
      injection Ha1 as ->. by rewrite Hguard.
  - rewrite (create_ticket_guarded _ _ _ _ Hguard).
    pose proof (write_ticket_advanced ticket_type args s) as Hw.
    unfold self_report in Hguard. unfold inserts. cbn [fst snd].
    destruct ticket_type.
    + destruct args as [|a0 [|a1 [|a2 [|a3 args]]]]; try exact Hw.
      * by apply advanced_refl.
      * by apply advanced_refl.
      * cbn [lookup list_lookup] in *. simpl in Hguard. rewrite Hguard. exact Hw.
    + destruct args as [|a0 [|a1 [|a2 args]]]; exact Hw.
Qed.

(** C3. Creations of one type handled one after the other, with no
    delete in between: the last-id query answers, creation by
    creation, the id of the row that creation has just appended, and
    these ids are consecutive, starting one above every id the table
    has held. One id is handed out for each request whose insert is
    accepted. *)
Theorem sequential_ids (ticket_type : TicketType)
    (reqs : list (Interaction * list Arg)) (s : State G) :
  let t := table_of ticket_type in
  let s' := create_tickets tickets_category ticket_type reqs s in
  let n := length (filter (λ r, inserts ticket_type r = true) reqs) in
  let new := seqZ (next_id (get_table (db s) t)) (Z.of_nat n) in
  fetched_ids t (trace s') = fetched_ids t (trace s) ++ ((λ i, [[SqlInt i]]) <$> new) ∧
  ids (get_table (db s') t) = ids (get_table (db s) t) ++ new.
Proof.
  intros t s' n new.
  assert (advanced t new s s') as (Hf & Hi & _); [|done].
  subst s' n new. revert s.
  induction reqs as [|[interaction args] reqs IH]; intros s.
  - by apply advanced_refl.
  - cbn [create_tickets].
    pose proof (create_ticket_advanced interaction ticket_type args s) as Hstep.
    fold t in Hstep.
    set (s1 := snd (create_ticket tickets_category interaction ticket_type args s))
      in *.
    specialize (IH s1).
    destruct (inserts ticket_type (interaction, args)) eqn:Hins.
    + rewrite filter_cons_True by done. cbn [length].
      rewrite seqZ_cons by lia.
      replace (Z.pred (Z.of_nat (S (length (filter (λ r, inserts ticket_type r = true) reqs)))))
        with (Z.of_nat (length (filter (λ r, inserts ticket_type r = true) reqs)))
        by lia.
      destruct Hstep as (Hf1 & Hi1 & Hn1). cbn [length] in Hn1.
      replace (Z.succ (next_id (get_table (db s) t)))
        with (next_id (get_table (db s1) t)) by lia.
      by apply (advanced_trans t [next_id (get_table (db s) t)] _ s s1).
    + rewrite filter_cons_False by (by rewrite Hins).
      destruct Hstep as (Hf1 & Hi1 & Hn1). cbn [length] in Hn1.
      replace (next_id (get_table (db s) t))
        with (next_id (get_table (db s1) t)) by lia.
      apply (advanced_trans t [] _ s s1); [|done].
      unfold advanced. rewrite Hf1, Hi1. cbn [length]. repeat split; lia.
Qed.

End Workflow.

(** ** The workflow on concrete states *)

Import Fixtures.

(** Three suggestions in a row on a fresh database. *)
Example three_suggestions :
  let reqs := [ (by_user 1, [AMember (member 1); AText "a"]);
                (by_user 2, [AMember (member 2); AText "b"]);
                (by_user 1, [AMember (member 1); AText "c"]) ] in
  let s := create_tickets 9 SUGGESTION reqs s0 in
  fetched_ids user_suggestion_tickets (trace s)
    = [ [[SqlInt 1]]; [[SqlInt 2]]; [[SqlInt 3]] ] ∧
  map (λ r, (ticket_id r, channel_id r)) (rows (suggestions (db s)))
    = [ (1, SqlInt 100); (2, SqlInt 101); (3, SqlInt 102) ].
Proof. split; reflexivity. Qed.

(** An id is not handed out again once its ticket is closed. *)
Example closed_id_not_reused :
  let args := [AMember (member 1); AText "a"] in
  let s1 := snd (create_ticket 9 (by_user 1) SUGGESTION args s0) in
  let s2 := snd (close_ticket (by_user 2) SUGGESTION 1 s1) in
  let s3 := snd (create_ticket 9 (by_user 1) SUGGESTION args s2) in
  rows (suggestions (db s2)) = [] ∧
  map ticket_id (rows (suggestions (db s3))) = [2].
Proof. split; reflexivity. Qed.

(** A report with too few values: the insert is refused and nothing
    is written. *)
Example short_report_refused :
  create_ticket 9 (by_user 1) REPORT [AMember (member 1); AMember (member 2)] s0
    = (Raised ProgrammingError,
       mkState empty_db SimpleGuild.fresh
         [EvExecute (InsertTicket user_report_tickets) [SqlInt 1; SqlInt 2]]).
Proof. reflexivity. Qed.

Lemma create_ticket_self_report_witness :
  [AMember (member 1); AMember (member 1); AText "x"] !! 1%nat
    = Some (AMember (member 1)) ∧
  m_id (member 1) = m_id (user (by_user 1)) ∧
  ∃ s', create_ticket 9 (by_user 1) REPORT
          [AMember (member 1); AMember (member 1); AText "x"] s0 = (Returned tt, s') ∧
        db s' = db s0 ∧
        guild s' = guild s0 ∧
        trace s' = trace s0 ++ [EvFollowup self_report_msg true].
Proof.
  split; [reflexivity|]. split; [reflexivity|].
  apply (create_ticket_self_report 9 (by_user 1) _ (member 1) s0); reflexivity.
Defined.

Lemma close_ticket_not_found_witness :
  (999 ∉ ids (get_table (db s0) (table_of REPORT))) ∧
  ∃ s', close_ticket (by_user 1) REPORT 999 s0 = (Returned tt, s') ∧
        db s' = db s0 ∧
        guild s' = guild s0 ∧
        trace s' = trace s0 ++
          [EvFetchall (SelectChannel (table_of REPORT)) [SqlInt 999] [];
           EvRespond (not_found_msg REPORT 999) true].
Proof.
  assert (999 ∉ ids (get_table (db s0) (table_of REPORT))) as Habs
    by (vm_compute; apply not_elem_of_nil).
  split; [exact Habs|].
  exact (close_ticket_not_found (by_user 1) REPORT 999 s0 Habs).
Defined.

Lemma close_then_find_witness :
  find_by_id (db s_open) REPORT 1 = Some (SqlInt 100) ∧
  close_ticket (by_user 2) REPORT 1 s_open
    = (Returned tt, snd (close_ticket (by_user 2) REPORT 1 s_open)) ∧
  find_by_id (db (snd (close_ticket (by_user 2) REPORT 1 s_open))) REPORT 1 = None ∧
  rows (get_table (db (snd (close_ticket (by_user 2) REPORT 1 s_open))) (table_of REPORT)) =
    filter (λ r, SqlInt (ticket_id r) ≠ SqlInt 1)
           (rows (get_table (db s_open) (table_of REPORT))) ∧
  last (trace (snd (close_ticket (by_user 2) REPORT 1 s_open)))
    = Some (EvRespond closed_msg true).
Proof.
  split; [reflexivity|]. split; [reflexivity|].
  apply (close_then_find (by_user 2) REPORT 1 (SqlInt 100) s_open); reflexivity.
Defined.

(** C2, as stated, fails: with ticket 1 open and the guild refusing the
    teardown, [close_ticket] raises, yet the row is already gone; the
    delete and its commit precede the teardown request. *)
Lemma close_ticket_teardown_fails_row_gone :
  find_by_id (db s_offline) REPORT 1 = Some (SqlInt 100) ∧
  fst (close_ticket (by_user 2) REPORT 1 s_offline) = Raised HTTPException ∧
  find_by_id (db (snd (close_ticket (by_user 2) REPORT 1 s_offline))) REPORT 1 = None ∧
  trace (snd (close_ticket (by_user 2) REPORT 1 s_offline)) =
    [ EvFetchall (SelectChannel user_report_tickets) [SqlInt 1] [[SqlInt 100]];
      EvExecute (DeleteTicket user_report_tickets) [SqlInt 1];
      EvCommit;
      EvDeleteChannel channel_100 "Ticket closed" ].
Proof. repeat split; reflexivity. Qed.

Lemma close_ticket_deletes_row_first_witness :
  find_by_id (db s_offline) REPORT 1 = Some (SqlInt 100) ∧
  find_by_id (db (snd (close_ticket (by_user 2) REPORT 1 s_offline))) REPORT 1 = None ∧
  ∃ rest,
    trace (snd (close_ticket (by_user 2) REPORT 1 s_offline)) = trace s_offline ++
      [EvFetchall (SelectChannel (table_of REPORT)) [SqlInt 1]
         (sql_select_channel (SqlInt 1) (get_table (db s_offline) (table_of REPORT)));
       EvExecute (DeleteTicket (table_of REPORT)) [SqlInt 1];
       EvCommit] ++ rest ∧
    ∀ e, e ∈ rest →
      (∃ ch reason, e = EvDeleteChannel ch reason) ∨ e = EvRespond closed_msg true.
Proof.
  split; [reflexivity|].
  apply (close_ticket_deletes_row_first (by_user 2) REPORT 1 (SqlInt 100) s_offline).
  reflexivity.
Defined.

Lemma create_then_find_witness :
  self_report (by_user 42) SUGGESTION [AMember (member 42); AText "add dark mode"] = false ∧
  create_ticket 9 (by_user 42) SUGGESTION [AMember (member 42); AText "add dark mode"] s0
    = (Returned tt,
       snd (create_ticket 9 (by_user 42) SUGGESTION
              [AMember (member 42); AText "add dark mode"] s0)) ∧
  ∃ ch,
    create_text_channel
      (lower (name SUGGESTION) ++ "-ticket-" ++
         pretty (next_id (get_table (db s0) (table_of SUGGESTION))))%string
      9 (guild s0)
      = Some (ch, guild (snd (create_ticket 9 (by_user 42) SUGGESTION
                                [AMember (member 42); AText "add dark mode"] s0))) ∧
    EvFetchall (SelectLastId (table_of SUGGESTION)) []
        [[SqlInt (next_id (get_table (db s0) (table_of SUGGESTION)))]]
      ∈ trace (snd (create_ticket 9 (by_user 42) SUGGESTION
                      [AMember (member 42); AText "add dark mode"] s0)) ∧
    find_by_id (db (snd (create_ticket 9 (by_user 42) SUGGESTION
                           [AMember (member 42); AText "add dark mode"] s0)))
      SUGGESTION (next_id (get_table (db s0) (table_of SUGGESTION)))
      = Some (SqlInt (ch_id ch)).
Proof.
  split; [reflexivity|]. split; [reflexivity|].
  apply (create_then_find 9 (by_user 42) SUGGESTION
           [AMember (member 42); AText "add dark mode"] s0); reflexivity.
Defined.

(** C7, as stated, fails twice over. On an empty suggestion table
    whose ticket 1 has been closed, the new ticket gets id 2 and the
    channel suggestion-ticket-2. And on a fresh table the first field
    of the summary carries the member's mention, [<@42>], not [42]. *)
Lemma suggestion_scenario_as_stated_fails :
  let args := [AMember (member 42); AText "add dark mode"] in
  let s_a := snd (create_ticket 9 (by_user 42) SUGGESTION args s_emptied) in
  let s_b := snd (create_ticket 9 (by_user 42) SUGGESTION args s0) in
  (rows (suggestions (db s_emptied)) = []) ∧
  take 4 (trace s_a) =
    [ EvExecute (InsertTicket user_suggestion_tickets)
        [SqlInt 42; SqlText "add dark mode"];
      EvCommit;
      EvFetchall (SelectLastId user_suggestion_tickets) [] [[SqlInt 2]];
      EvCreateChannel "suggestion-ticket-2" 9 ] ∧
  m_id (member 42) = 42 ∧
  (∃ ch e, last (trace s_b) = Some (EvSend ch e) ∧
           map (λ f, (f_name f, f_value f)) (e_fields e) =
             [ ("Suggestion From", "<@42>");
               ("Suggestion/Feature Request", "add dark mode") ]) ∧
  "<@42>" ≠ "42".
Proof.
  cbv zeta. split; [reflexivity|]. split; [reflexivity|].
  split; [reflexivity|]. split; [|discriminate].
  eexists _, _. split; reflexivity.
Qed.

Lemma suggestion_scenario_witness :
  m_id (member 42) = 42 ∧
  get_table (db s0) user_suggestion_tickets = empty_table ∧
  create_text_channel "suggestion-ticket-1" 9 (guild s0)
    = Some ({| ch_id := 100; ch_name := "suggestion-ticket-1"; ch_category := 9 |},
            SimpleGuild.mk
              [ {| ch_id := 100; ch_name := "suggestion-ticket-1"; ch_category := 9 |} ]
              101 true) ∧
  ∃ s',
    create_ticket 9 {| user := member 42 |} SUGGESTION
      [AMember (member 42); AText "add dark mode"] s0 = (Returned tt, s') ∧
    rows (get_table (db s') user_suggestion_tickets) =
      [ {| ticket_id := 1; user_id := SqlInt 42; accused_user_id := None;
           channel_id := SqlInt 100; msg := SqlText "add dark mode" |} ] ∧
    trace s' = trace s0 ++
      [ EvExecute (InsertTicket user_suggestion_tickets)
          [SqlInt 42; SqlText "add dark mode"];
        EvCommit;
        EvFetchall (SelectLastId user_suggestion_tickets) [] [[SqlInt 1]];
        EvCreateChannel "suggestion-ticket-1" 9;
        EvExecute (UpdateChannel user_suggestion_tickets) [SqlInt 100; SqlInt 1];
        EvCommit;
        EvSend {| ch_id := 100; ch_name := "suggestion-ticket-1"; ch_category := 9 |}
          {| e_colour := m_colour (member 42);
             e_title := "Suggestion Ticket #1";
             e_fields :=
               [ {| f_name := "Suggestion From"; f_value := m_mention (member 42);
                    f_inline := false |};
                 {| f_name := "Suggestion/Feature Request";
                    f_value := "add dark mode"; f_inline := false |} ] |} ].
Proof.
  split; [reflexivity|]. split; [reflexivity|]. split; [reflexivity|].
  apply (suggestion_scenario 9 (member 42) s0
           {| ch_id := 100; ch_name := "suggestion-ticket-1"; ch_category := 9 |}
           (SimpleGuild.mk
              [ {| ch_id := 100; ch_name := "suggestion-ticket-1"; ch_category := 9 |} ]
              101 true)); reflexivity.
Defined.

(** ** The log-file opener *)

Lemma string_length_app (s1 s2 : string) :
  String.length (s1 +:+ s2) = (String.length s1 + String.length s2)%nat.
Proof. induction s1 as [|c s1 IH]; simpl; [done|by rewrite IH]. Qed.

Lemma string_app_inv_head (s t1 t2 : string) : s +:+ t1 = s +:+ t2 → t1 = t2.
Proof. induction s as [|c s IH]; simpl; [done|]. intros [= Heq]. by apply IH. Qed.

Lemma string_app_inv_tail (s1 s2 t : string) : s1 +:+ t = s2 +:+ t → s1 = s2.
Proof.
  revert s2. induction s1 as [|c s1 IH]; intros [|c' s2] Heq; simpl in *.
  - done.
  - apply (f_equal String.length) in Heq.
    rewrite !string_length_app in Heq. simpl in Heq.
    rewrite ?string_length_app in Heq. lia.
  - apply (f_equal String.length) in Heq.
    rewrite !string_length_app in Heq. simpl in Heq.
    rewrite ?string_length_app in Heq. lia.
  - injection Heq as -> Heq. by rewrite (IH _ Heq).
Qed.

Section LogsFacts.
Variables LOGS timestamp : string.

Lemma filename_inj (i j : nat) : filename timestamp i = filename timestamp j → i = j.
Proof.
  unfold filename. destruct i as [|i], j as [|j]; try done.
  - by intros [=]%string_app_inv_head.
  - by intros [=]%string_app_inv_head.
  - intros Heq%string_app_inv_head.
    injection Heq as Heq.
    change (pretty (S i) +:+ ").txt" = pretty (S j) +:+ ").txt") in Heq.
    apply string_app_inv_tail in Heq. by apply (inj pretty).
Qed.

Global Instance path_of_inj : Inj (=) (=) (path_of LOGS timestamp).
Proof.
  intros i j Heq. unfold path_of in Heq.
  by apply string_app_inv_head, string_app_inv_head, filename_inj in Heq.
Qed.

(** A directory cannot hold more of the candidate paths than it has
    entries. *)
Lemma taken_paths_bound (fs : gmap string string) (n : nat) :
  (∀ j, (j < n)%nat → is_Some (fs !! path_of LOGS timestamp j)) → (n ≤ size fs)%nat.
Proof.
  intros Htaken.
  assert (NoDup (path_of LOGS timestamp <$> List.seq 0 n)) as Hnd
    by (apply (NoDup_fmap_2 _), NoDup_seq).
  rewrite <- (size_dom (D:=gset string)).
  trans (size (list_to_set (C:=gset string)
                 (path_of LOGS timestamp <$> List.seq 0 n))).
  - rewrite size_list_to_set by done. by rewrite length_fmap, length_seq.
  - apply subseteq_size. intros p Hp.
    apply elem_of_list_to_set, list_elem_of_fmap in Hp as (j & -> & Hj).
    apply elem_of_seq in Hj. apply elem_of_dom, Htaken. lia.
Qed.

Lemma open_from_spec (fuel i : nat) (fs : gmap string string) :
  (∀ j, (i ≤ j < i + fuel)%nat → is_Some (fs !! path_of LOGS timestamp j)) ∨
  (∃ k, (i ≤ k < i + fuel)%nat ∧
        fs !! path_of LOGS timestamp k = None ∧
        (∀ j, (i ≤ j < k)%nat → is_Some (fs !! path_of LOGS timestamp j)) ∧
        open_from LOGS timestamp fuel i fs =
          Some (path_of LOGS timestamp k, <[path_of LOGS timestamp k := ""]> fs)).
Proof.
  revert i. induction fuel as [|fuel IH]; intros i.
  - left. intros j Hj. lia.
  - cbn [open_from]. unfold open_x.
    destruct (fs !! path_of LOGS timestamp i) as [c|] eqn:Hi.
    + destruct (IH (S i)) as [Hall|(k & Hk & Hfree & Hbelow & Hrun)].
      * left. intros j Hj. destruct (decide (j = i)) as [->|]; [by rewrite Hi|].
        apply Hall. lia.
      * right. exists k. split; [lia|]. split; [done|]. split; [|done].
        intros j Hj. destruct (decide (j = i)) as [->|]; [by rewrite Hi|].
        apply Hbelow. lia.
    + right. exists i. split; [lia|]. split; [done|]. split; [|done].
      intros j Hj. lia.
Qed.

(** C10. Whatever the logs directory holds, [_open_file] comes back
    with a file it has just created under a path that was not there:
    the first of the timestamp name and its numbered variants
    [_(1)], [_(2)], ... that is free, found after at most as many
    refusals as the directory has entries. The new file is empty and
    every file that was there is kept with its contents. *)
Theorem open_file_fresh (fs : gmap string string) :
  ∃ k, (k ≤ size fs)%nat ∧
       fs !! path_of LOGS timestamp k = None ∧
       (∀ j, (j < k)%nat → is_Some (fs !! path_of LOGS timestamp j)) ∧
       (∀ fuel, (k < fuel)%nat →
          _open_file LOGS timestamp fuel fs =
            Some (path_of LOGS timestamp k, <[path_of LOGS timestamp k := ""]> fs)) ∧
       (∀ p c, fs !! p = Some c → <[path_of LOGS timestamp k := ""]> fs !! p = Some c).
Proof.
  destruct (open_from_spec (S (size fs)) 0 fs)
    as [Hall|(k & Hk & Hfree & Hbelow & Hrun)].
  - pose proof (taken_paths_bound fs (S (size fs))) as Hb.
    assert (S (size fs) ≤ size fs)%nat; [|lia].
    apply Hb. intros j Hj. apply Hall. lia.
  - exists k.
    assert (∀ j, (j < k)%nat → is_Some (fs !! path_of LOGS timestamp j)) as Hbelow'
      by (intros j Hj; apply Hbelow; lia).
    split; [by apply taken_paths_bound|]. split; [done|]. split; [done|]. split.
    + intros fuel Hfuel. unfold _open_file.
      destruct (open_from_spec fuel 0 fs)
        as [Hall|(k' & Hk' & Hfree' & Hbelow2 & Hrun')].
      * destruct (Hall k) as [c Hc]; [lia|]. by rewrite Hfree in Hc.
      * destruct (lt_eq_lt_dec k k') as [[Hlt | -> ] | Hgt]; [| done |].
        -- destruct (Hbelow2 k) as [c Hc]; [lia|]. by rewrite Hfree in Hc.
        -- destruct (Hbelow k') as [c Hc]; [lia|]. by rewrite Hfree' in Hc.
    + intros p c Hp. rewrite lookup_insert_ne; [done|].
      intros <-. by rewrite Hfree in Hp.
Qed.

End LogsFacts.

(** ** More on the ticket workflow *)

Lemma inserted_row_channel t vals i r :
  inserted_row t vals i = Some r → channel_id r = SqlNull.
Proof.
  unfold inserted_row.
  destruct t, vals as [|u [|a [|m [|? ?]]]]; intros [= <-]; reflexivity.
Qed.

Lemma sql_insert_refused t vals tb :
  length vals ≠ placeholders t → sql_insert t vals tb = None.
Proof.
  unfold sql_insert, placeholders.
  destruct t, vals as [|u [|a [|m [|? ?]]]]; done.
Qed.

Lemma sql_insert_accepted t vals tb :
  length vals = placeholders t →
  ∃ r, inserted_row t vals (next_id tb) = Some r ∧
       sql_insert t vals tb = Some {| rows := rows tb ++ [r]; seq := next_id tb |}.
Proof.
  intros Hlen. rewrite sql_insert_spec.
  unfold inserted_row, placeholders in *.
  destruct t, vals as [|u [|a [|m [|? ?]]]]; try done; eauto.
Qed.

Lemma inserts_spec ticket_type interaction args :
  inserts ticket_type (interaction, args) =
    negb (self_report interaction ticket_type args) &&
    bool_decide (length args = placeholders (table_of ticket_type)).
Proof.
  unfold inserts, self_report, placeholders, table_of. cbn [fst snd].
  destruct ticket_type, args as [|a0 [|a1 [|a2 [|a3 args]]]]; cbn;
    rewrite ?andb_false_r, ?andb_true_r; try reflexivity.
  all: by destruct (arg_eq_member _ _).
Qed.

Lemma select_empty_filter i rs :
  filter (λ r, SqlInt (ticket_id r) = i) rs = [] →
  filter (λ r, SqlInt (ticket_id r) ≠ i) rs = rs.
Proof.
  induction rs as [|r rs IH]; [done|]. intros Hrs.
  destruct (decide (SqlInt (ticket_id r) = i)) as [Heq|Hne].
  - by rewrite filter_cons_True in Hrs.
  - rewrite filter_cons_False in Hrs by done.
    rewrite filter_cons_True by done. by rewrite IH.
Qed.

Lemma ids_sql_delete i tb :
  ids (sql_delete (SqlInt i) tb) = filter (λ j, j ≠ i) (ids tb).
Proof.
  unfold ids, sql_delete. cbn [rows].
  induction (rows tb) as [|r rs IH]; [done|].
  destruct (decide (ticket_id r = i)) as [Heq|Hne].
  - rewrite filter_cons_False by (intros Hn; apply Hn; by f_equal).
    cbn [map]. by rewrite filter_cons_False by (intros Hn; by apply Hn).
  - rewrite filter_cons_True by (by intros [= ?]).
    cbn [map]. rewrite filter_cons_True by done. by rewrite IH.
Qed.

Section WorkflowMore.
Context {G : Type} `{ChannelService G}.
Variable tickets_category : Z.

(** What a call leaves behind when its insert is not executed or not
    accepted. *)
Lemma create_ticket_idle (interaction : Interaction) (ticket_type : TicketType)
    (args : list Arg) (s : State G) :
  inserts ticket_type (interaction, args) = false →
  db (snd (create_ticket tickets_category interaction ticket_type args s)) = db s ∧
  guild (snd (create_ticket tickets_category interaction ticket_type args s)) = guild s.
Proof.
  rewrite inserts_spec. intros Hins.
  destruct (self_report interaction ticket_type args) eqn:Hguard.
  - unfold self_report in Hguard. destruct ticket_type; [|done].
    destruct (args !! 1%nat) as [a1|] eqn:Ha1; [|done].
    unfold create_ticket, bind, lift, index. by rewrite Ha1, Hguard.
  - rewrite (create_ticket_guarded _ _ _ _ _ Hguard).
    cbn [negb andb] in Hins. apply bool_decide_eq_false in Hins.
    assert (write_ticket tickets_category ticket_type args s =
              (Raised ProgrammingError,
               mkState (db s) (guild s)
                 (trace s ++ [EvExecute (InsertTicket (table_of ticket_type))
                                 (map normalize args)]))) as Hw.
    { apply write_ticket_rejected, sql_insert_refused. by rewrite length_map. }
    destruct ticket_type; [|by rewrite Hw].
    destruct (args !! 1%nat); [by rewrite Hw|done].
Qed.

Lemma create_ticket_inserting (interaction : Interaction) (ticket_type : TicketType)
    (args : list Arg) (s : State G) :
  inserts ticket_type (interaction, args) = true →
  let t := table_of ticket_type in
  ∃ r,
    inserted_row t (map normalize args) (next_id (get_table (db s) t)) = Some r ∧
    sql_insert t (map normalize args) (get_table (db s) t) =
      Some {| rows := rows (get_table (db s) t) ++ [r];
              seq := next_id (get_table (db s) t) |} ∧
    create_ticket tickets_category interaction ticket_type args s =
      write_ticket tickets_category ticket_type args s.
Proof.
  rewrite inserts_spec. intros [Hguard Hlen%bool_decide_eq_true]%andb_true_iff t.
  apply negb_true_iff in Hguard.
  destruct (sql_insert_accepted t (map normalize args) (get_table (db s) t))
    as (r & Hr & Hins); [by rewrite length_map|].
  exists r. split; [done|]. split; [done|].
  rewrite (create_ticket_guarded _ _ _ _ _ Hguard).
  destruct ticket_type; [|done].
  destruct (args !! 1%nat) eqn:Ha1; [done|].
  apply lookup_ge_None in Ha1. cbn in Hlen. lia.
Qed.

Lemma create_ticket_written (interaction : Interaction) (ticket_type : TicketType)
    (args : list Arg) (s : State G) :
  inserts ticket_type (interaction, args) = true →
  let t := table_of ticket_type in
  let i := next_id (get_table (db s) t) in
  let s' := snd (create_ticket tickets_category interaction ticket_type args s) in
  ∃ r,
    inserted_row t (map normalize args) i = Some r ∧
    get_table (db s') t =
      {| rows := rows (get_table (db s) t) ++
           [match create_text_channel
                    (lower (name ticket_type) ++ "-ticket-" ++ pretty i)%string
                    tickets_category (guild s) with
            | Some (ch, _) => with_channel (SqlInt (ch_id ch)) r
            | None => r
            end];
         seq := i |} ∧
    get_table (db s') (other_table t) = get_table (db s) (other_table t).
Proof.
  intros Hyes t i s'. subst s' i t.
  destruct (create_ticket_inserting _ _ _ s Hyes) as (r & Hr & Hins & ->).
  exists r. split; [done|].
  destruct (create_text_channel _ _ _) as [[ch g']|] eqn:Hprov.
  - rewrite (write_ticket_provisioned _ _ _ _ _ _ _ Hins Hprov).
    cbn [snd db]. rewrite get_set_table_eq.
    destruct (sql_update_after_insert _ _ _ _ (SqlInt (ch_id ch)) Hins)
      as (r' & Hr' & _ & ->).
    rewrite Hr in Hr'. injection Hr' as <-.
    split; [done|]. rewrite get_set_table_ne; [done|by destruct ticket_type].
  - rewrite (write_ticket_unprovisioned _ _ _ _ _ Hins Hprov).
    cbn [snd db]. rewrite get_set_table_eq.
    split; [done|]. rewrite get_set_table_ne; [done|by destruct ticket_type].
Qed.

Lemma close_ticket_absent (interaction : Interaction) (ticket_type : TicketType)
    (i : Z) (s : State G) :
  find_by_id (db s) ticket_type i = None →
  close_ticket interaction ticket_type i s =
    (Returned tt,
     mkState (db s) (guild s)
       (trace s ++
          [EvFetchall (SelectChannel (table_of ticket_type)) [SqlInt i] [];
           EvRespond (not_found_msg ticket_type i) true])).
Proof.
  intros Hsel%find_by_id_None.
  unfold close_ticket, bind, fetch_channel. rewrite Hsel. cbn.
  unfold emit. cbn. by rewrite <- app_assoc.
Qed.

Lemma close_ticket_tables (interaction : Interaction) (ticket_type : TicketType)
    (i : Z) (s : State G) :
  let t := table_of ticket_type in
  let s' := snd (close_ticket interaction ticket_type i s) in
  get_table (db s') t = sql_delete (SqlInt i) (get_table (db s) t) ∧
  get_table (db s') (other_table t) = get_table (db s) (other_table t).
Proof.
  intros t s'. subst s'.
  destruct (find_by_id (db s) ticket_type i) as [c|] eqn:Hfind.
  - rewrite (close_ticket_found _ _ _ _ _ Hfind). fold t.
    unfold bind, delete_ticket_channel. cbn [db guild trace].
    assert (∀ t', t' ≠ t →
              get_table (set_table (db s) t (sql_delete (SqlInt i) (get_table (db s) t))) t'
                = get_table (db s) t') as Hother
      by (intros; by apply get_set_table_ne).
    destruct (get_channel c (guild s)) as [ch|]; cbn [snd db].
    + destruct (delete_channel ch (guild s)); cbn [snd db emit];
        (split; [apply get_set_table_eq|apply Hother; by destruct t]).
    + split; [apply get_set_table_eq|apply Hother; by destruct t].
  - rewrite (close_ticket_absent _ _ _ _ Hfind). cbn [snd db]. split; [|done].
    apply find_by_id_None in Hfind. fold t in Hfind.
    unfold sql_select_channel in Hfind. apply fmap_nil_inv in Hfind.
    unfold sql_delete. rewrite (select_empty_filter _ _ Hfind).
    by destruct (get_table (db s) t).
Qed.

Lemma ids_below_next tb i : i ∈ ids tb → i < next_id tb.
Proof.
  unfold ids. intros (r & -> & Hr)%list_elem_of_fmap. by apply next_id_above.
Qed.

Lemma unique_ids_tables d : unique_ids d ↔ ∀ t, NoDup (ids (get_table d t)).
Proof.
  unfold unique_ids. split.
  - intros [Hr Hs] []; done.
  - intros Hall. split; [apply (Hall user_report_tickets)|apply (Hall user_suggestion_tickets)].
Qed.

Lemma other_table_spec t t' : t' ≠ t → t' = other_table t.
Proof. by destruct t, t'. Qed.

(** C9. In a creation whose insert is accepted and for which the
    guild returns a channel, the update that [create_ticket] executes
    is keyed by the id the last-id query has answered, and it changes
    the [channel_id] of the one row carrying that id and nothing
    else: the rows that were there before the call are unchanged and
    none of them has that id, the new row keeps the id, user, accused
    and body the insert gave it, the table's id counter is as the
    insert left it, and the table of the other type is untouched. *)
Theorem set_channel_frame (interaction : Interaction) (ticket_type : TicketType)
    (args : list Arg) (s : State G) (ch : Channel) (g' : G) :
  let t := table_of ticket_type in
  let i := next_id (get_table (db s) t) in
  let nm := (lower (name ticket_type) ++ "-ticket-" ++ pretty i)%string in
  let s' := snd (create_ticket tickets_category interaction ticket_type args s) in
  inserts ticket_type (interaction, args) = true →
  create_text_channel nm tickets_category (guild s) = Some (ch, g') →
  ∃ tb1 r r2,
    sql_insert t (map normalize args) (get_table (db s) t) = Some tb1 ∧
    rows tb1 = rows (get_table (db s) t) ++ [r] ∧
    sql_last_id tb1 = [[SqlInt i]] ∧
    ticket_id r = i ∧
    (∀ r', r' ∈ rows (get_table (db s) t) → ticket_id r' ≠ i) ∧
    EvExecute (UpdateChannel t) [SqlInt (ch_id ch); SqlInt i] ∈ trace s' ∧
    rows (get_table (db s') t) = rows (get_table (db s) t) ++ [r2] ∧
    channel_id r2 = SqlInt (ch_id ch) ∧
    ticket_id r2 = ticket_id r ∧
    user_id r2 = user_id r ∧
    accused_user_id r2 = accused_user_id r ∧
    msg r2 = msg r ∧
    seq (get_table (db s') t) = seq tb1 ∧
    get_table (db s') (other_table t) = get_table (db s) (other_table t).
Proof.
  intros t i nm s' Hyes Hprov. subst s'.
  destruct (create_ticket_written _ _ _ s Hyes) as (r & Hr & Htb & Hother).
  destruct (create_ticket_inserting _ _ _ s Hyes) as (r0 & Hr0 & Hins & Hrun).
  fold t i in Hr, Htb, Hother, Hr0, Hins. fold nm in Htb.
  rewrite Hr in Hr0. injection Hr0 as <-. rewrite Hprov in Htb.
  assert (ticket_id r = i) as Hid by (by eapply inserted_row_id).
  eexists _, r, (with_channel (SqlInt (ch_id ch)) r).
  split; [exact Hins|]. cbn [rows seq].
  split; [done|]. split; [by apply (sql_last_id_after_insert _ _ _ _ Hins)|].
  split; [done|]. split.
  { intros r' Hin Heq. pose proof (next_id_above _ _ Hin) as Hlt. subst i. lia. }
  split.
  { rewrite Hrun, (write_ticket_provisioned _ _ _ _ _ _ _ Hins Hprov).
    cbn [snd trace]. fold t i nm.
    apply elem_of_app. right. apply elem_of_app. right.
    apply elem_of_app. left. rewrite !elem_of_cons. auto. }
  rewrite Htb. cbn [rows seq]. by repeat split.
Qed.

(** X1. Whatever its arguments and its outcome, [create_ticket]
    leaves every row that was in the store as it was and where it was:
    the table of the other type is untouched, and the table of its own
    type keeps its rows and gains at most one after them. *)
Theorem create_ticket_keeps_rows (interaction : Interaction)
    (ticket_type : TicketType) (args : list Arg) (s : State G) :
  let t := table_of ticket_type in
  let s' := snd (create_ticket tickets_category interaction ticket_type args s) in
  get_table (db s') (other_table t) = get_table (db s) (other_table t) ∧
  ∃ extra,
    rows (get_table (db s') t) = rows (get_table (db s) t) ++ extra ∧
    (length extra ≤ 1)%nat.
Proof.
  intros t s'. subst s'.
  destruct (inserts ticket_type (interaction, args)) eqn:Hins.
  - destruct (create_ticket_written _ _ _ s Hins) as (r & _ & Htb & Hother).
    fold t in Htb, Hother. split; [done|]. rewrite Htb. cbn [rows].
    eexists. split; [done|]. cbn. lia.
  - destruct (create_ticket_idle _ _ _ s Hins) as [-> _].
    split; [done|]. exists []. split; [by rewrite app_nil_r|]. cbn. lia.
Qed.

(** X2. When the guild refuses the channel, [create_ticket] raises and
    nothing is undone: the row it has inserted stays, with no channel,
    a lookup of the new id answers NULL, and neither the update nor the
    summary is issued. *)
Theorem create_ticket_unprovisioned (interaction : Interaction)
    (ticket_type : TicketType) (args : list Arg) (s : State G) :
  let t := table_of ticket_type in
  let i := next_id (get_table (db s) t) in
  let nm := (lower (name ticket_type) ++ "-ticket-" ++ pretty i)%string in
  inserts ticket_type (interaction, args) = true →
  create_text_channel nm tickets_category (guild s) = None →
  ∃ s',
    create_ticket tickets_category interaction ticket_type args s
      = (Raised HTTPException, s') ∧
    find_by_id (db s') ticket_type i = Some SqlNull ∧
    guild s' = guild s ∧
    trace s' = trace s ++ insert_events t (map normalize args) i
                 ++ [EvCreateChannel nm tickets_category].
Proof.
  intros t i nm Hyes Hprov.
  destruct (create_ticket_inserting _ _ _ s Hyes) as (r & Hr & Hins & ->).
  rewrite (write_ticket_unprovisioned _ _ _ _ _ Hins Hprov).
  eexists. split; [done|]. cbn [db guild trace]. split; [|done].
  apply find_by_id_Some. rewrite get_set_table_eq.
  unfold sql_select_channel. cbn [rows]. rewrite filter_app, select_absent.
  - rewrite filter_cons_True by (f_equal; by eapply inserted_row_id).
    cbn. rewrite (inserted_row_channel _ _ _ _ Hr). eauto.
  - intros r' Hin Heq. pose proof (next_id_above _ _ Hin) as Hlt. subst i t. lia.
Qed.

(** X3. Closing a ticket whose stored channel the guild does not know
    (a row left without one, or a channel removed by hand) still
    deletes the row, and then raises at [get_channel(...).delete]:
    no teardown is asked for and the user gets no reply. *)
Theorem close_ticket_unknown_channel (interaction : Interaction)
    (ticket_type : TicketType) (i : Z) (c : SqlValue) (s : State G) :
  find_by_id (db s) ticket_type i = Some c →
  get_channel c (guild s) = None →
  ∃ s',
    close_ticket interaction ticket_type i s = (Raised AttributeError, s') ∧
    find_by_id (db s') ticket_type i = None ∧
    guild s' = guild s ∧
    trace s' = trace s ++
      [EvFetchall (SelectChannel (table_of ticket_type)) [SqlInt i]
         (sql_select_channel (SqlInt i) (get_table (db s) (table_of ticket_type)));
       EvExecute (DeleteTicket (table_of ticket_type)) [SqlInt i];
       EvCommit].
Proof.
  intros Hfind Hunknown. rewrite (close_ticket_found _ _ _ _ _ Hfind).
  unfold bind, delete_ticket_channel. cbn [db guild trace]. rewrite Hunknown.
  eexists. split; [done|]. cbn [db guild trace].
  split; [apply find_by_id_after_delete|done].
Qed.

(** X4. A call that passes the self-report guard with a number of
    values other than the insert's placeholders stops at the insert
    with [ProgrammingError]: the statement is issued and refused, the
    store and the guild are as before, and no channel is asked for. *)
Theorem create_ticket_wrong_arity (interaction : Interaction)
    (ticket_type : TicketType) (args : list Arg) (s : State G) :
  self_report interaction ticket_type args = false →
  length args ≠ placeholders (table_of ticket_type) →
  (ticket_type = REPORT → (2 ≤ length args)%nat) →
  create_ticket tickets_category interaction ticket_type args s =
    (Raised ProgrammingError,
     mkState (db s) (guild s)
       (trace s ++ [EvExecute (InsertTicket (table_of ticket_type))
                       (map normalize args)])).
Proof.
  intros Hguard Hlen Htwo. rewrite (create_ticket_guarded _ _ _ _ _ Hguard).
  assert (write_ticket tickets_category ticket_type args s =
            (Raised ProgrammingError,
             mkState (db s) (guild s)
               (trace s ++ [EvExecute (InsertTicket (table_of ticket_type))
                               (map normalize args)]))) as Hw.
  { apply write_ticket_rejected, sql_insert_refused. by rewrite length_map. }
  destruct ticket_type; [|done].
  destruct (args !! 1%nat) eqn:Ha1; [done|].
  apply lookup_ge_None in Ha1. specialize (Htwo eq_refl). lia.
Qed.

(** A REPORT with fewer than two arguments raises [IndexError] at
    the guard's [args[1]], before anything is asked of the store, the
    guild or the user. *)
Theorem create_report_too_short (interaction : Interaction) (args : list Arg)
    (s : State G) :
  (length args < 2)%nat →
  create_ticket tickets_category interaction REPORT args s = (Raised IndexError, s).
Proof.
  intros Hlen. unfold create_ticket, bind, lift, index.
  by rewrite (proj2 (lookup_ge_None args 1)) by lia.
Qed.

(** X5. Ticket ids stay unique within each table: if no two rows of a
    table share an id before a [create_ticket] or a [close_ticket],
    none do after it, whatever the call's outcome. *)
Theorem unique_ids_preserved (interaction : Interaction) (ticket_type : TicketType)
    (args : list Arg) (i : Z) (s : State G) :
  unique_ids (db s) →
  unique_ids (db (snd (create_ticket tickets_category interaction ticket_type args s))) ∧
  unique_ids (db (snd (close_ticket interaction ticket_type i s))).
Proof.
  intros Huniq0. pose proof (proj1 (unique_ids_tables _) Huniq0) as Huniq.
  split; apply unique_ids_tables; intros t0.
  - destruct (inserts ticket_type (interaction, args)) eqn:Hins.
    + destruct (create_ticket_written _ _ _ s Hins) as (r & Hr & Htb & Hother).
      destruct (decide (t0 = table_of ticket_type)) as [->|Hne].
      * rewrite Htb. unfold ids. cbn [rows]. rewrite map_app.
        apply NoDup_app. split; [apply Huniq|]. split; [|apply NoDup_singleton].
        cbn [map]. intros j Hj Hj2%list_elem_of_singleton.
        apply ids_below_next in Hj.
        assert (ticket_id r = next_id (get_table (db s) (table_of ticket_type)))
          as Hid by (by eapply inserted_row_id).
        destruct (create_text_channel _ _ _) as [[ch ?]|]; cbn in *; lia.
      * rewrite (other_table_spec _ _ Hne), Hother.
        rewrite <- (other_table_spec _ _ Hne). apply Huniq.
    + destruct (create_ticket_idle _ _ _ s Hins) as [-> _]. apply Huniq.
  - destruct (close_ticket_tables interaction ticket_type i s) as [Htb Hother].
    destruct (decide (t0 = table_of ticket_type)) as [->|Hne].
    + rewrite Htb, ids_sql_delete. apply NoDup_filter, Huniq.
    + rewrite (other_table_spec _ _ Hne), Hother.
      rewrite <- (other_table_spec _ _ Hne). apply Huniq.
Qed.

(** X6. Whatever its outcome, [close_ticket] changes the store by no
    more than the rows of its type that carry the given id: the other
    rows of that table stay, in order and unchanged, the table's id
    counter stays, and the table of the other type is untouched. *)
Theorem close_ticket_frame (interaction : Interaction) (ticket_type : TicketType)
    (i : Z) (s : State G) :
  let t := table_of ticket_type in
  let s' := snd (close_ticket interaction ticket_type i s) in
  rows (get_table (db s') t) =
    filter (λ r, ticket_id r ≠ i) (rows (get_table (db s) t)) ∧
  seq (get_table (db s') t) = seq (get_table (db s) t) ∧
  get_table (db s') (other_table t) = get_table (db s) (other_table t).
Proof.
  intros t s'. subst s'.
  destruct (close_ticket_tables interaction ticket_type i s) as [Htb Hother].
  fold t in Htb, Hother. rewrite Htb. split; [|done].
  unfold sql_delete. cbn [rows]. apply list_filter_iff.
  intros r. split; [intros Hne Heq; apply Hne; by f_equal|by intros Hne [= ?]].
Qed.

(** X7. Creating a ticket and then closing the id it was given puts
    the rows of both tables back as they were before the creation,
    whether or not the guild provided or removed the channel; only the
    table's id counter has moved on, so the id is not handed out
    again. *)
Theorem create_then_close_restores (interaction closer : Interaction)
    (ticket_type : TicketType) (args : list Arg) (s : State G) :
  inserts ticket_type (interaction, args) = true →
  let t := table_of ticket_type in
  let i := next_id (get_table (db s) t) in
  let s1 := snd (create_ticket tickets_category interaction ticket_type args s) in
  let s2 := snd (close_ticket closer ticket_type i s1) in
  rows (get_table (db s2) t) = rows (get_table (db s) t) ∧
  get_table (db s2) (other_table t) = get_table (db s) (other_table t) ∧
  seq (get_table (db s2) t) = i ∧
  next_id (get_table (db s2) t) = i + 1.
Proof.
  intros Hyes t i s1 s2.
  destruct (create_ticket_written _ _ _ s Hyes) as (r & Hr & Htb & Hother).
  fold t i s1 in Hr, Htb, Hother.
  destruct (close_ticket_tables closer ticket_type i s1) as [Htb2 Hother2].
  fold t s2 in Htb2, Hother2.
  assert (ticket_id r = i) as Hid by (by eapply inserted_row_id).
  assert (rows (get_table (db s2) t) = rows (get_table (db s) t)) as Hrows.
  { rewrite Htb2, Htb. unfold sql_delete. cbn [rows].
    rewrite filter_app, filter_cons_False, filter_nil, app_nil_r.
    - apply select_empty_filter, select_absent.
      intros r' Hin Heq. pose proof (next_id_above _ _ Hin) as Hlt. subst i. lia.
    - intros Hne. apply Hne. f_equal.
      by destruct (create_text_channel _ _ _) as [[ch ?]|]. }
  assert (seq (get_table (db s2) t) = i) as Hseq by (by rewrite Htb2, Htb).
  split; [done|]. split; [by rewrite Hother2|]. split; [done|].
  unfold next_id at 1. rewrite Hseq, Hrows.
  destruct (greatest_id (rows (get_table (db s) t))) as [m|] eqn:Hm; cbn.
  - subst i. unfold next_id. rewrite Hm. cbn. lia.
  - subst i. unfold next_id. rewrite Hm. cbn. lia.
Qed.

End WorkflowMore.

(** ** The commands *)

Section CommandsFacts.
Context {G : Type} `{ChannelService G}.
Variable tickets_category : Z.
Variable get_member : Interaction → string → G → option Member.

(** X8. A report that names no member of the guild, or names the
    reporter, writes nothing and asks nothing of the guild. The first
    is answered that the report cannot be processed; the second gets
    the self-report rebuff and, after it, the same thanks as a report
    that was filed. *)
Theorem report_on_submit_turned_away (interaction modal_interaction : Interaction)
    (accused_user reason : string) (s : State G) :
  match get_member modal_interaction accused_user (guild s) with
  | None => True
  | Some member => m_id member = m_id (user interaction)
  end →
  ∃ s',
    report_on_submit tickets_category get_member interaction modal_interaction
      accused_user reason s = (Returned tt, s') ∧
    db s' = db s ∧
    guild s' = guild s ∧
    trace s' = trace s ++
      match get_member modal_interaction accused_user (guild s) with
      | None => [EvRespond unable_msg true]
      | Some _ => [EvFollowup self_report_msg true; EvRespond thanks_report_msg true]
      end.
Proof.
  unfold report_on_submit.
  destruct (get_member modal_interaction accused_user (guild s)) as [member|].
  - intros Hsame. unfold bind, create_ticket, lift, index. cbn.
    rewrite bool_decide_eq_true_2 by done.
    eexists. split; [reflexivity|]. cbn. by rewrite <- app_assoc.
  - intros _. eexists. split; [reflexivity|]. done.
Qed.

Lemma suggestion_on_submit_run (interaction modal_interaction : Interaction)
    (suggestion : string) (s : State G) :
  let u := user interaction in
  let tb := get_table (db s) user_suggestion_tickets in
  let i := next_id tb in
  let nm := ("suggestion-ticket-" ++ pretty i)%string in
  let vals := [SqlInt (m_id u); SqlText suggestion] in
  let row c := {| ticket_id := i; user_id := SqlInt (m_id u);
                  accused_user_id := None; channel_id := c;
                  msg := SqlText suggestion |} in
  suggestion_on_submit tickets_category interaction modal_interaction suggestion s =
    match create_text_channel nm tickets_category (guild s) with
    | Some (ch, g') =>
        (Returned tt,
         mkState
           (set_table (db s) user_suggestion_tickets
              {| rows := rows tb ++ [row (SqlInt (ch_id ch))]; seq := i |})
           g'
           (trace s ++ insert_events user_suggestion_tickets vals i ++
              [ EvCreateChannel nm tickets_category;
                EvExecute (UpdateChannel user_suggestion_tickets)
                  [SqlInt (ch_id ch); SqlInt i];
                EvCommit;
                EvSend ch
                  {| e_colour := m_colour u;
                     e_title := ("Suggestion Ticket #" ++ pretty i)%string;
                     e_fields :=
                       [ {| f_name := "Suggestion From"; f_value := m_mention u;
                            f_inline := false |};
                         {| f_name := "Suggestion/Feature Request";
                            f_value := suggestion; f_inline := false |} ] |};
                EvRespond thanks_suggestion_msg true ]))
    | None =>
        (Raised HTTPException,
         mkState
           (set_table (db s) user_suggestion_tickets
              {| rows := rows tb ++ [row SqlNull]; seq := i |})
           (guild s)
           (trace s ++ insert_events user_suggestion_tickets vals i ++
              [EvCreateChannel nm tickets_category]))
    end.
Proof.
  intros u tb i nm vals row. unfold suggestion_on_submit.
  assert (inserts SUGGESTION
            (interaction, [AMember (user interaction); AText suggestion]) = true)
    as Hyes by reflexivity.
  destruct (create_ticket_inserting tickets_category _ _ _ s Hyes)
    as (r & Hr & Hins & Hrun).
  cbn [table_of map normalize] in Hr, Hins, Hrun. fold u tb i vals in Hr, Hins.
  injection Hr as <-. fold (row SqlNull) in Hins.
  unfold bind at 1. rewrite Hrun.
  destruct (create_text_channel nm tickets_category (guild s))
    as [[ch g']|] eqn:Hprov.
  - rewrite (write_ticket_provisioned tickets_category SUGGESTION
               [AMember (user interaction); AText suggestion] s _ ch g' Hins Hprov).
    cbn [table_of map normalize]. fold u tb i vals.
    destruct (sql_update_after_insert user_suggestion_tickets vals tb _
                (SqlInt (ch_id ch)) Hins)
      as (r' & Hr' & _ & Hupd).
    fold tb i in Hr', Hupd. injection Hr' as <-. rewrite Hupd.
    cbn. unfold emit. cbn [db guild trace]. fold u nm.
    do 2 f_equal. rewrite <- !app_assoc. reflexivity.
  - by rewrite (write_ticket_unprovisioned tickets_category SUGGESTION
                  [AMember (user interaction); AText suggestion] s _ Hins Hprov).
Qed.

Lemma report_on_submit_run (interaction modal_interaction : Interaction)
    (accused_user reason : string) (member : Member) (s : State G) :
  get_member modal_interaction accused_user (guild s) = Some member →
  m_id member ≠ m_id (user interaction) →
  let u := user interaction in
  let tb := get_table (db s) user_report_tickets in
  let i := next_id tb in
  let nm := ("report-ticket-" ++ pretty i)%string in
  let vals := [SqlInt (m_id u); SqlInt (m_id member); SqlText reason] in
  let row c := {| ticket_id := i; user_id := SqlInt (m_id u);
                  accused_user_id := Some (SqlInt (m_id member)); channel_id := c;
                  msg := SqlText reason |} in
  report_on_submit tickets_category get_member interaction modal_interaction
    accused_user reason s =
    match create_text_channel nm tickets_category (guild s) with
    | Some (ch, g') =>
        (Returned tt,
         mkState
           (set_table (db s) user_report_tickets
              {| rows := rows tb ++ [row (SqlInt (ch_id ch))]; seq := i |})
           g'
           (trace s ++ insert_events user_report_tickets vals i ++
              [ EvCreateChannel nm tickets_category;
                EvExecute (UpdateChannel user_report_tickets)
                  [SqlInt (ch_id ch); SqlInt i];
                EvCommit;
                EvSend ch
                  {| e_colour := m_colour u;
                     e_title := ("Report Ticket #" ++ pretty i)%string;
                     e_fields :=
                       [ {| f_name := "Accuser"; f_value := m_mention u;
                            f_inline := false |};
                         {| f_name := "Accusing"; f_value := m_mention member;
                            f_inline := false |};
                         {| f_name := "Reason Given"; f_value := reason;
                            f_inline := false |} ] |};
                EvRespond thanks_report_msg true ]))
    | None =>
        (Raised HTTPException,
         mkState
           (set_table (db s) user_report_tickets
              {| rows := rows tb ++ [row SqlNull]; seq := i |})
           (guild s)
           (trace s ++ insert_events user_report_tickets vals i ++
              [EvCreateChannel nm tickets_category]))
    end.
Proof.
  intros Hmember Hother u tb i nm vals row. unfold report_on_submit.
  rewrite Hmember.
  assert (inserts REPORT
            (interaction,
             [AMember (user interaction); AMember member; AText reason]) = true)
    as Hyes.
  { cbn. by rewrite bool_decide_eq_false_2. }
  destruct (create_ticket_inserting tickets_category _ _ _ s Hyes)
    as (r & Hr & Hins & Hrun).
  cbn [table_of map normalize] in Hr, Hins, Hrun. fold u tb i vals in Hr, Hins.
  injection Hr as <-. fold (row SqlNull) in Hins.
  unfold bind at 1. rewrite Hrun.
  destruct (create_text_channel nm tickets_category (guild s))
    as [[ch g']|] eqn:Hprov.
  - rewrite (write_ticket_provisioned tickets_category REPORT
               [AMember (user interaction); AMember member; AText reason]
               s _ ch g' Hins Hprov).
    cbn [table_of map normalize]. fold u tb i vals.
    destruct (sql_update_after_insert user_report_tickets vals tb _
                (SqlInt (ch_id ch)) Hins)
      as (r' & Hr' & _ & Hupd).
    fold tb i in Hr', Hupd. injection Hr' as <-. rewrite Hupd.
    cbn. unfold emit. cbn [db guild trace]. fold u nm.
    do 2 f_equal. rewrite <- !app_assoc. reflexivity.
  - by rewrite (write_ticket_unprovisioned tickets_category REPORT
                  [AMember (user interaction); AMember member; AText reason]
                  s _ Hins Hprov).
Qed.

(** X9. When the suggestion command returns normally, the guild has
    returned a channel for the name built from the new id, the
    suggestion table has gained exactly one row, holding the user's
    id, that channel's id and the text, the summary has been posted to
    the channel, and the thanks to the user is the last thing sent. *)
Theorem suggestion_on_submit_outcome (interaction modal_interaction : Interaction)
    (suggestion : string) (s s' : State G) :
  suggestion_on_submit tickets_category interaction modal_interaction suggestion s
    = (Returned tt, s') →
  let u := user interaction in
  let tb := get_table (db s) user_suggestion_tickets in
  let i := next_id tb in
  let nm := ("suggestion-ticket-" ++ pretty i)%string in
  ∃ ch,
    create_text_channel nm tickets_category (guild s) = Some (ch, guild s') ∧
    get_table (db s') user_suggestion_tickets =
      {| rows := rows tb ++
           [ {| ticket_id := i; user_id := SqlInt (m_id u);
                accused_user_id := None; channel_id := SqlInt (ch_id ch);
                msg := SqlText suggestion |} ];
         seq := i |} ∧
    get_table (db s') user_report_tickets = get_table (db s) user_report_tickets ∧
    trace s' = trace s ++
      insert_events user_suggestion_tickets [SqlInt (m_id u); SqlText suggestion] i ++
      [ EvCreateChannel nm tickets_category;
        EvExecute (UpdateChannel user_suggestion_tickets) [SqlInt (ch_id ch); SqlInt i];
        EvCommit;
        EvSend ch
          {| e_colour := m_colour u;
             e_title := ("Suggestion Ticket #" ++ pretty i)%string;
             e_fields :=
               [ {| f_name := "Suggestion From"; f_value := m_mention u;
                    f_inline := false |};
                 {| f_name := "Suggestion/Feature Request";
                    f_value := suggestion; f_inline := false |} ] |};
        EvRespond thanks_suggestion_msg true ].
Proof.
  rewrite suggestion_on_submit_run. intros Hrun u tb i nm. fold u tb i nm in Hrun.
  destruct (create_text_channel nm tickets_category (guild s)) as [[ch g']|];
    [|done].
  injection Hrun as <-. exists ch. by repeat split.
Qed.

(** X10. When the report command returns normally on a name that
    stands for another member of the guild, the guild has returned a
    channel for the name built from the new id, the report table has
    gained exactly one row, holding the reporter's id, the accused's
    id, that channel's id and the reason, the summary posted to the
    channel names accuser, accused and reason, and the thanks to the
    reporter is the last thing sent. *)
Theorem report_on_submit_outcome (interaction modal_interaction : Interaction)
    (accused_user reason : string) (member : Member) (s s' : State G) :
  get_member modal_interaction accused_user (guild s) = Some member →
  m_id member ≠ m_id (user interaction) →
  report_on_submit tickets_category get_member interaction modal_interaction
    accused_user reason s = (Returned tt, s') →
  let u := user interaction in
  let tb := get_table (db s) user_report_tickets in
  let i := next_id tb in
  let nm := ("report-ticket-" ++ pretty i)%string in
  ∃ ch,
    create_text_channel nm tickets_category (guild s) = Some (ch, guild s') ∧
    get_table (db s') user_report_tickets =
      {| rows := rows tb ++
           [ {| ticket_id := i; user_id := SqlInt (m_id u);
                accused_user_id := Some (SqlInt (m_id member));
                channel_id := SqlInt (ch_id ch); msg := SqlText reason |} ];
         seq := i |} ∧
    get_table (db s') user_suggestion_tickets
      = get_table (db s) user_suggestion_tickets ∧
    trace s' = trace s ++
      insert_events user_report_tickets
        [SqlInt (m_id u); SqlInt (m_id member); SqlText reason] i ++
      [ EvCreateChannel nm tickets_category;
        EvExecute (UpdateChannel user_report_tickets) [SqlInt (ch_id ch); SqlInt i];
        EvCommit;
        EvSend ch
          {| e_colour := m_colour u;
             e_title := ("Report Ticket #" ++ pretty i)%string;
             e_fields :=
               [ {| f_name := "Accuser"; f_value := m_mention u; f_inline := false |};
                 {| f_name := "Accusing"; f_value := m_mention member;
                    f_inline := false |};
                 {| f_name := "Reason Given"; f_value := reason;
                    f_inline := false |} ] |};
        EvRespond thanks_report_msg true ].
Proof.
  intros Hmember Hother.
  rewrite (report_on_submit_run _ _ _ _ _ _ Hmember Hother).
  intros Hrun u tb i nm. fold u tb i nm in Hrun.
  destruct (create_text_channel nm tickets_category (guild s)) as [[ch g']|];
    [|done].
  injection Hrun as <-. exists ch. by repeat split.
Qed.

End CommandsFacts.

(** ** Expired log files *)

Lemma string_app_cons (x : ascii) (a b : string) :
  String x a +:+ b = String x (a +:+ b).
Proof. reflexivity. Qed.

Lemma string_app_nil (b : string) : "" +:+ b = b.
Proof. reflexivity. Qed.

Lemma string_app_assoc (a b c : string) : (a +:+ b) +:+ c = a +:+ (b +:+ c).
Proof.
  induction a as [|x a IH]; [done|]. by rewrite !string_app_cons, IH.
Qed.

Lemma strip_prefix_app (pre s : string) : strip_prefix pre (pre +:+ s) = Some s.
Proof.
  induction pre as [|a pre IH]; [done|].
  rewrite string_app_cons. cbn [strip_prefix]. by rewrite Ascii.eqb_refl.
Qed.

Lemma strip_prefix_Some (pre p nm : string) :
  strip_prefix pre p = Some nm → p = pre +:+ nm.
Proof.
  revert p. induction pre as [|a pre IH]; intros p; cbn [strip_prefix].
  - by intros [= ->].
  - destruct p as [|b p]; [done|].
    destruct (Ascii.eqb a b) eqn:Hab; [|done].
    apply Ascii.eqb_eq in Hab as ->. intros Hp.
    by rewrite string_app_cons, (IH _ Hp).
Qed.

Lemma has_char_app (c : ascii) (a b : string) :
  has_char c (a +:+ b) = has_char c a || has_char c b.
Proof.
  induction a as [|x a IH]; [done|].
  rewrite string_app_cons. cbn [has_char]. by rewrite IH, orb_assoc.
Qed.

Lemma has_char_pretty_N_go (x : N) (s : string) :
  has_char "/" (pretty_N_go x s) = has_char "/" s.
Proof.
  revert s. induction (N.lt_wf_0 x) as [x _ IH]; intros s.
  assert (x = 0 ∨ 0 < x)%N as [->|Hpos] by lia.
  - by rewrite pretty_N_go_0.
  - rewrite pretty_N_go_step by done. rewrite IH by (by apply N.div_lt).
    cbn [has_char]. unfold pretty_N_char. by repeat case_match.
Qed.

Lemma has_slash_pretty_nat (n : nat) : has_char "/" (pretty n) = false.
Proof.
  unfold pretty, pretty_nat, pretty, pretty_N.
  case_decide; [done|]. by rewrite has_char_pretty_N_go.
Qed.

Lemma rfind_dot_txt (x : string) : rfind "." (x +:+ ".txt") = Some (String.length x).
Proof.
  induction x as [|a x IH]; [done|].
  rewrite string_app_cons. cbn [rfind String.length]. by rewrite IH.
Qed.

Lemma substring_app_l (x y : string) : substring 0 (String.length x) (x +:+ y) = x.
Proof.
  induction x as [|a x IH]; [by destruct y|].
  rewrite string_app_cons. cbn [substring String.length]. by rewrite IH.
Qed.

Lemma stem_txt (x : string) : x ≠ "" → stem (x +:+ ".txt") = x.
Proof.
  intros Hx. unfold stem. rewrite rfind_dot_txt, string_length_app.
  destruct x as [|a x]; [done|]. cbn [String.length].
  replace (0 <? S (String.length x))%nat with true by (symmetry; apply Nat.ltb_lt; lia).
  replace (S (String.length x) <? S (String.length x) + 4 - 1)%nat with true
    by (symmetry; apply Nat.ltb_lt; lia).
  apply (substring_app_l (String a x)).
Qed.

Lemma before_clean (c : ascii) (x : string) : has_char c x = false → before c x = x.
Proof.
  induction x as [|a x IH]; cbn [has_char before]; [done|].
  intros [Ha Hx]%orb_false_iff. by rewrite Ha, IH.
Qed.

Lemma before_app (c : ascii) (x y : string) :
  has_char c x = false → before c (x +:+ String c y) = x.
Proof.
  induction x as [|a x IH].
  - intros _. rewrite string_app_nil. cbn [before]. by rewrite Ascii.eqb_refl.
  - rewrite string_app_cons. cbn [has_char before].
    intros [Ha Hx]%orb_false_iff. by rewrite Ha, IH.
Qed.

Lemma ends_with_app (suf x : string) : ends_with suf (x +:+ suf) = true.
Proof.
  induction x as [|a x IH].
  - rewrite string_app_nil. destruct suf; cbn [ends_with]; by rewrite String.eqb_refl.
  - rewrite string_app_cons. cbn [ends_with]. rewrite IH. apply orb_true_r.
Qed.

Section OldLogsFacts.
Variables LOGS timestamp : string.
Variable expired : string → option bool.
Variable unlink_raises : string → bool.

Lemma glob_txt_elem (entries : gset string) (p nm : string) :
  (p, nm) ∈ glob_txt LOGS entries ↔
  p ∈ entries ∧ entry_name LOGS p = Some nm ∧ ends_with ".txt" nm = true.
Proof.
  unfold glob_txt. rewrite list_elem_of_omap. split.
  - intros (q & Hin%elem_of_elements & Hq).
    destruct (entry_name LOGS q) as [nm'|] eqn:Hnm; [|done].
    destruct (ends_with ".txt" nm') eqn:Htxt; [|done].
    injection Hq as <- <-. eauto.
  - intros (Hin & Hnm & Htxt). exists p. split.
    + by apply elem_of_elements.
    + by rewrite Hnm, Htxt.
Qed.

Lemma unlinked_entry (p nm : string) :
  entry_name LOGS p = Some nm → ends_with ".txt" nm = true →
  unlinked LOGS expired p =
    match expired (before "_" (stem nm)) with Some true => true | _ => false end.
Proof. intros Hnm Htxt. unfold unlinked. by rewrite Hnm, Htxt. Qed.

Lemma foldl_visit_stopped (l : list (string * string)) (st : Sweep) :
  is_Some (raised_at st) → foldl (visit_log LOGS expired unlink_raises) st l = st.
Proof.
  intros [q Hq]. induction l as [|pn l IH]; [done|].
  cbn [foldl]. unfold visit_log at 2. by rewrite Hq.
Qed.

(** One step of the loop on a [.txt] entry, by cases. *)
Lemma visit_log_cases (st : Sweep) (q nm : string) :
  raised_at st = None →
  entry_name LOGS q = Some nm → ends_with ".txt" nm = true →
  let st1 := visit_log LOGS expired unlink_raises st (q, nm) in
  (unlinked LOGS expired q = false ∧
   present st1 = present st ∧ raised_at st1 = None ∧
   ∀ r, r ∈ logged st1 ↔ r ∈ logged st ∨ record_of LOGS expired nm = Some r) ∨
  (unlinked LOGS expired q = true ∧ unlink_raises q = false ∧
   present st1 = present st ∖ {[q]} ∧ raised_at st1 = None ∧
   ∀ r, r ∈ logged st1 ↔ r ∈ logged st ∨ record_of LOGS expired nm = Some r) ∨
  (unlinked LOGS expired q = true ∧ unlink_raises q = true ∧
   present st1 = present st ∧ raised_at st1 = Some q).
Proof.
  intros Hgo Hnm Htxt st1. subst st1.
  rewrite (unlinked_entry q nm Hnm Htxt).
  unfold visit_log, record_of. rewrite Hgo. cbn [fst snd].
  destruct (expired (before "_" (stem nm))) as [[]|].
  - destruct (unlink_raises q) eqn:Hdir; cbn [present logged raised_at].
    + right. right. done.
    + right. left. repeat split; try done.
      * rewrite elem_of_app, list_elem_of_singleton. intros [?| -> ]; auto.
      * rewrite elem_of_app, list_elem_of_singleton. intros [?|[= <-]]; auto.
  - left. repeat split; try done; [auto|by intros [?|?]].
  - left. cbn [present logged raised_at]. repeat split; try done.
    + rewrite elem_of_app, list_elem_of_singleton. intros [?| -> ]; auto.
    + rewrite elem_of_app, list_elem_of_singleton. intros [?|[= <-]]; auto.
Qed.

(** What holds of the loop whether or not it raises. *)
Lemma foldl_visit_any (l : list (string * string)) (st : Sweep) :
  raised_at st = None →
  (∀ q nm, (q, nm) ∈ l →
     entry_name LOGS q = Some nm ∧ ends_with ".txt" nm = true) →
  let st' := foldl (visit_log LOGS expired unlink_raises) st l in
  (∀ p, p ∈ present st' → p ∈ present st) ∧
  (∀ p, p ∈ present st → unlinked LOGS expired p = false → p ∈ present st') ∧
  (∀ p, p ∈ present st → unlink_raises p = true → p ∈ present st') ∧
  (∀ q, raised_at st' = Some q →
        q ∈ l.*1 ∧ unlinked LOGS expired q = true ∧ unlink_raises q = true) ∧
  (raised_at st' = None ↔
     ∀ q, q ∈ l.*1 → unlinked LOGS expired q = true → unlink_raises q = false).
Proof.
  revert st. induction l as [|[q nm] l IH]; intros st Hgo Hl.
  - cbn [foldl]. split; [done|]. split; [done|]. split; [done|]. split.
    + intros q Hq. congruence.
    + split; [by intros _ q ?%elem_of_nil|done].
  - cbn [foldl]. rewrite fmap_cons. cbn [fst].
    destruct (Hl q nm) as [Hnm Htxt]; [by left|].
    assert (∀ q' nm', (q', nm') ∈ l →
              entry_name LOGS q' = Some nm' ∧ ends_with ".txt" nm' = true) as Hl'
      by (intros; apply Hl; by right).
    destruct (visit_log_cases st q nm Hgo Hnm Htxt)
      as [(Hun & Hpres & Hgo1 & _)|[(Hun & Hdir & Hpres & Hgo1 & _)|
          (Hun & Hdir & Hpres & Hstop)]].
    + destruct (IH _ Hgo1 Hl') as (Hsub & Hkeep & Hkeepd & Hraise & Hiff).
      rewrite Hpres in Hsub, Hkeep, Hkeepd.
      split; [done|]. split; [done|]. split; [done|]. split.
      * intros q' Hq'. destruct (Hraise q' Hq') as (Hin & Hu & Hd).
        split; [by right|done].
      * split.
        -- intros Hnone q' [-> |Hin]%elem_of_cons Hq'; [congruence|].
           by apply (proj1 Hiff Hnone).
        -- intros Hall. apply Hiff. intros q' Hin. apply Hall. by right.
    + destruct (IH _ Hgo1 Hl') as (Hsub & Hkeep & Hkeepd & Hraise & Hiff).
      rewrite Hpres in Hsub, Hkeep, Hkeepd.
      split; [|split; [|split; [|split]]].
      * intros p Hp. apply Hsub in Hp. by apply elem_of_difference in Hp as [? _].
      * intros p Hp Hlive. apply Hkeep; [|done].
        apply elem_of_difference. split; [done|].
        intros ->%elem_of_singleton. congruence.
      * intros p Hp Hpd. apply Hkeepd; [|done].
        apply elem_of_difference. split; [done|].
        intros ->%elem_of_singleton. congruence.
      * intros q' Hq'. destruct (Hraise q' Hq') as (Hin & Hu & Hd).
        split; [by right|done].
      * split.
        -- intros Hnone q' [-> |Hin]%elem_of_cons Hq'; [done|].
           by apply (proj1 Hiff Hnone).
        -- intros Hall. apply Hiff. intros q' Hin. apply Hall. by right.
    + rewrite foldl_visit_stopped by (by rewrite Hstop).
      rewrite Hpres, Hstop.
      split; [done|]. split; [done|]. split; [done|]. split.
      * intros q' [= <-]. split; [by left|done].
      * split; [done|]. intros Hall. rewrite (Hall q) in Hdir; [done|by left|done].
Qed.

(** What holds of a loop that has not raised. *)
Lemma foldl_visit_returned (l : list (string * string)) (st : Sweep) :
  raised_at st = None →
  (∀ q nm, (q, nm) ∈ l →
     entry_name LOGS q = Some nm ∧ ends_with ".txt" nm = true) →
  let st' := foldl (visit_log LOGS expired unlink_raises) st l in
  raised_at st' = None →
  (∀ p, p ∈ present st' ↔
        p ∈ present st ∧ ¬ (unlinked LOGS expired p = true ∧ p ∈ l.*1)) ∧
  (∀ r, r ∈ logged st' ↔
        r ∈ logged st ∨ ∃ q nm, (q, nm) ∈ l ∧ record_of LOGS expired nm = Some r).
Proof.
  revert st. induction l as [|[q nm] l IH]; intros st Hgo Hl.
  - cbn [foldl]. intros _. split.
    + intros p. split; [intros Hp; split; [done|by intros [_ ?%elem_of_nil]]|by intros [? _]].
    + intros r. split; [by left|]. by intros [?|(? & ? & ?%elem_of_nil & _)].
  - cbn [foldl]. rewrite fmap_cons. cbn [fst].
    destruct (Hl q nm) as [Hnm Htxt]; [by left|].
    assert (∀ q' nm', (q', nm') ∈ l →
              entry_name LOGS q' = Some nm' ∧ ends_with ".txt" nm' = true) as Hl'
      by (intros; apply Hl; by right).
    assert (∀ r, (r ∈ logged st ∨ record_of LOGS expired nm = Some r) ∨
                 (∃ q' nm', (q', nm') ∈ l ∧ record_of LOGS expired nm' = Some r) ↔
                 r ∈ logged st ∨
                 ∃ q' nm', (q', nm') ∈ (q, nm) :: l ∧
                           record_of LOGS expired nm' = Some r) as Hrec.
    { intros r. split.
      - intros [[?|Hr]|(q' & nm' & Hin & Hr)]; [by left|right..].
        + exists q, nm. split; [by left|done].
        + exists q', nm'. split; [by right|done].
      - intros [?|(q' & nm' & [[= -> ->]|Hin]%elem_of_cons & Hr)].
        + by left; left.
        + by left; right.
        + right. eauto. }
    destruct (visit_log_cases st q nm Hgo Hnm Htxt)
      as [(Hun & Hpres & Hgo1 & Hlog)|[(Hun & Hdir & Hpres & Hgo1 & Hlog)|
          (Hun & Hdir & Hpres & Hstop)]].
    + intros Hret. destruct (IH _ Hgo1 Hl' Hret) as [Hp Hr]. split.
      * intros p. rewrite Hp, Hpres, elem_of_cons. split.
        -- intros [Hin Hno]. split; [done|].
           intros [Hu [-> |Hin']]; [congruence|]. by apply Hno.
        -- intros [Hin Hno]. split; [done|].
           intros [Hu Hin']. apply Hno. split; [done|by right].
      * intros r. rewrite Hr, Hlog. apply Hrec.
    + intros Hret. destruct (IH _ Hgo1 Hl' Hret) as [Hp Hr]. split.
      * intros p. rewrite Hp, Hpres, elem_of_difference, elem_of_singleton, elem_of_cons.
        split.
        -- intros [[Hin Hne] Hno]. split; [done|].
           intros [Hu [-> |Hin']]; [done|]. by apply Hno.
        -- intros [Hin Hno]. split; [split; [done|]|].
           ++ intros ->. apply Hno. split; [done|by left].
           ++ intros [Hu Hin']. apply Hno. split; [done|by right].
      * intros r. rewrite Hr, Hlog. apply Hrec.
    + rewrite foldl_visit_stopped by (by rewrite Hstop). by rewrite Hstop.
Qed.

(** The records of a loop that has not raised, one by one. *)
Lemma foldl_visit_logged (l : list (string * string)) (st : Sweep) :
  raised_at st = None →
  let st' := foldl (visit_log LOGS expired unlink_raises) st l in
  raised_at st' = None →
  logged st' = logged st ++ omap (λ pn, record_of LOGS expired pn.2) l.
Proof.
  revert st. induction l as [|[q nm] l IH]; intros st Hgo.
  - cbn [foldl omap list_omap]. intros _. by rewrite app_nil_r.
  - cbn [foldl]. intros Hret.
    destruct (raised_at (visit_log LOGS expired unlink_raises st (q, nm)))
      as [q'|] eqn:Hstep.
    { rewrite foldl_visit_stopped in Hret by (by rewrite Hstep). congruence. }
    rewrite (IH _ Hstep Hret). clear IH Hret.
    change (omap (λ pn, record_of LOGS expired pn.2) ((q, nm) :: l))
      with (match record_of LOGS expired nm with
            | Some r => r :: omap (λ pn, record_of LOGS expired pn.2) l
            | None => omap (λ pn, record_of LOGS expired pn.2) l
            end).
    revert Hstep. unfold visit_log, record_of. rewrite Hgo. cbn [fst snd].
    destruct (expired (before "_" (stem nm))) as [[]|].
    + destruct (unlink_raises q); cbn [raised_at logged]; [done|].
      intros _. by rewrite <- app_assoc.
    + done.
    + cbn [raised_at logged]. intros _. by rewrite <- app_assoc.
Qed.

Lemma delete_old_logs_any (entries : gset string) :
  let r := _delete_old_logs LOGS expired unlink_raises entries in
  (∀ p, p ∈ present r → p ∈ entries) ∧
  (∀ p, p ∈ entries → unlinked LOGS expired p = false → p ∈ present r) ∧
  (∀ p, p ∈ entries → unlink_raises p = true → p ∈ present r) ∧
  (∀ q, raised_at r = Some q →
        q ∈ entries ∧ unlinked LOGS expired q = true ∧ unlink_raises q = true) ∧
  (raised_at r = None ↔
     ∀ q, q ∈ entries → unlinked LOGS expired q = true → unlink_raises q = false).
Proof.
  intros r. subst r. unfold _delete_old_logs.
  destruct (foldl_visit_any (glob_txt LOGS entries) (mkSweep entries [] None))
    as (Hsub & Hkeep & Hkeepd & Hraise & Hiff); [done|..].
  { intros q nm Hin%glob_txt_elem. tauto. }
  cbn [present] in Hsub, Hkeep, Hkeepd.
  assert (∀ q, q ∈ (glob_txt LOGS entries).*1 → q ∈ entries) as Hglob.
  { intros q ([q' nm] & -> & Hin%glob_txt_elem)%list_elem_of_fmap. tauto. }
  split; [done|]. split; [done|]. split; [done|]. split.
  - intros q Hq. destruct (Hraise q Hq) as (Hin & Hu & Hd). auto.
  - rewrite Hiff. split.
    + intros Hall q Hq Hu. apply Hall; [|done].
      unfold unlinked in Hu.
      destruct (entry_name LOGS q) as [nm|] eqn:Hnm; [|done].
      apply andb_true_iff in Hu as [Htxt _].
      apply list_elem_of_fmap. exists (q, nm). split; [done|].
      by apply glob_txt_elem.
    + intros Hall q Hq. apply Hall. by apply Hglob.
Qed.

Lemma delete_old_logs_returned (entries : gset string) :
  let r := _delete_old_logs LOGS expired unlink_raises entries in
  raised_at r = None →
  (∀ p, p ∈ present r ↔ p ∈ entries ∧ unlinked LOGS expired p = false) ∧
  (∀ rec, rec ∈ logged r ↔
          ∃ p nm, p ∈ entries ∧ entry_name LOGS p = Some nm ∧
                  ends_with ".txt" nm = true ∧ record_of LOGS expired nm = Some rec).
Proof.
  intros r Hret. subst r. unfold _delete_old_logs in *.
  destruct (foldl_visit_returned (glob_txt LOGS entries) (mkSweep entries [] None))
    as [Hp Hr]; [done| |done|].
  { intros q nm Hin%glob_txt_elem. tauto. }
  cbn [present logged] in Hp, Hr. split.
  - intros p. rewrite Hp. split.
    + intros [Hin Hno]. split; [done|].
      destruct (unlinked LOGS expired p) eqn:Hun; [|done].
      exfalso. apply Hno. split; [done|].
      unfold unlinked in Hun.
      destruct (entry_name LOGS p) as [nm|] eqn:Hnm; [|done].
      apply andb_true_iff in Hun as [Htxt _].
      apply list_elem_of_fmap. exists (p, nm). split; [done|].
      by apply glob_txt_elem.
    + intros [Hin Hun]. split; [done|]. intros [Hun' _]. congruence.
  - intros rec. rewrite Hr. split.
    + intros [?%elem_of_nil|(p & nm & Hin%glob_txt_elem & Hrec)]; [done|].
      exists p, nm. tauto.
    + intros (p & nm & Hin & Hnm & Htxt & Hrec). right. exists p, nm.
      split; [by apply glob_txt_elem|done].
Qed.

(** X11. When [_delete_old_logs] returns, it has removed exactly the
    paths that are entries of the logs directory, have a name ending
    in [.txt], and whose name up to the suffix and the first
    underscore is a date that has reached the maximum age; every other
    path is still present, in particular one whose prefix is no date.
    It has handed the logger one record for each [.txt] entry that was
    removed (the removal notice) or has no date for a prefix (the
    warning that names it), in the order of the listing, and none for
    the others. Which paths are present and which records were logged
    does not depend on that order. *)
Theorem delete_old_logs_filter (entries : gset string) :
  let r := _delete_old_logs LOGS expired unlink_raises entries in
  raised_at r = None →
  present r = filter (λ p, unlinked LOGS expired p = false) entries ∧
  logged r = omap (λ pn, record_of LOGS expired pn.2) (glob_txt LOGS entries) ∧
  ∀ rec, rec ∈ logged r ↔
         ∃ p nm, p ∈ entries ∧ entry_name LOGS p = Some nm ∧
                 ends_with ".txt" nm = true ∧ record_of LOGS expired nm = Some rec.
Proof.
  intros r Hret. destruct (delete_old_logs_returned entries Hret) as [Hp Hr].
  split; [|split; [|done]].
  - apply set_eq. intros p. fold r in Hp. rewrite Hp, elem_of_filter. tauto.
  - subst r. unfold _delete_old_logs in *.
    by rewrite (foldl_visit_logged (glob_txt LOGS entries) (mkSweep entries [] None)).
Qed.

(** X18. The only error that leaves [_delete_old_logs] is one of
    [unlink], on an entry the loop was to remove (a directory named
    like an expired log, for one): it returns if and only if [unlink]
    raises on no [.txt] entry with an expired date for a prefix. When
    it raises, it is at such an entry, which stays. Raising or not, it
    removes nothing but entries it was to remove: every path that was
    present and is not one of those is present afterwards, and no path
    is added. *)
Theorem delete_old_logs_directory (entries : gset string) :
  let r := _delete_old_logs LOGS expired unlink_raises entries in
  (raised_at r = None ↔
     ∀ q, q ∈ entries → unlinked LOGS expired q = true → unlink_raises q = false) ∧
  (∀ q, raised_at r = Some q →
        q ∈ entries ∧ q ∈ present r ∧
        unlinked LOGS expired q = true ∧ unlink_raises q = true) ∧
  (∀ p, p ∈ entries → unlinked LOGS expired p = false → p ∈ present r) ∧
  (∀ p, p ∈ present r → p ∈ entries).
Proof.
  intros r.
  destruct (delete_old_logs_any entries) as (Hsub & Hkeep & Hkeepd & Hraise & Hiff).
  fold r in Hsub, Hkeep, Hkeepd, Hraise, Hiff.
  split; [done|]. split; [|split; done].
  intros q Hq. destruct (Hraise q Hq) as (Hin & Hu & Hd).
  split; [done|]. split; [by apply Hkeepd|done].
Qed.

Lemma entry_name_path_of (i : nat) :
  has_char "/" timestamp = false →
  entry_name LOGS (path_of LOGS timestamp i) = Some (filename timestamp i).
Proof.
  intros Hts. unfold entry_name, path_of.
  rewrite <- string_app_assoc, strip_prefix_app.
  replace (has_char "/" (filename timestamp i)) with false; [done|].
  symmetry. unfold filename. destruct i as [|i].
  - by rewrite has_char_app, Hts.
  - by rewrite !has_char_app, Hts, has_slash_pretty_nat.
Qed.

Lemma filename_prefix (i : nat) :
  timestamp ≠ "" → has_char "_" timestamp = false →
  ends_with ".txt" (filename timestamp i) = true ∧
  before "_" (stem (filename timestamp i)) = timestamp.
Proof.
  intros Hne Hts. unfold filename. destruct i as [|i].
  - split; [apply ends_with_app|]. by rewrite stem_txt, before_clean.
  - replace (timestamp +:+ "_(" +:+ pretty (S i) +:+ ").txt")
      with ((timestamp +:+ "_(" +:+ pretty (S i) +:+ ")") +:+ ".txt")
      by (by rewrite !string_app_assoc).
    split; [apply ends_with_app|]. rewrite stem_txt.
    + by apply (before_app "_" timestamp).
    + by destruct timestamp.
Qed.

Lemma unlinked_path_of (i : nat) :
  timestamp ≠ "" →
  has_char "_" timestamp = false →
  has_char "/" timestamp = false →
  unlinked LOGS expired (path_of LOGS timestamp i) =
    match expired timestamp with Some true => true | _ => false end.
Proof.
  intros Hne Hunder Hslash.
  destruct (filename_prefix i Hne Hunder) as [Htxt Hpre].
  rewrite (unlinked_entry _ _ (entry_name_path_of i Hslash) Htxt).
  by rewrite Hpre.
Qed.

Lemma survives_path_of (entries : gset string) (i : nat) :
  timestamp ≠ "" →
  has_char "_" timestamp = false →
  has_char "/" timestamp = false →
  let r := _delete_old_logs LOGS expired unlink_raises entries in
  let p := path_of LOGS timestamp i in
  (expired timestamp ≠ Some true → (p ∈ present r ↔ p ∈ entries)) ∧
  (raised_at r = None → (p ∈ present r ↔ p ∈ entries ∧ expired timestamp ≠ Some true)).
Proof.
  intros Hne Hunder Hslash r p.
  pose proof (unlinked_path_of i Hne Hunder Hslash) as Hun. fold p in Hun.
  destruct (delete_old_logs_any entries) as (Hsub & Hkeep & _).
  fold r in Hsub, Hkeep. split.
  - intros Hlive. split; [apply Hsub|]. intros Hp. apply Hkeep; [done|].
    rewrite Hun. by destruct (expired timestamp) as [[]|].
  - intros Hret. destruct (delete_old_logs_returned entries Hret) as [Hp _].
    fold r in Hp. rewrite Hp, Hun.
    destruct (expired timestamp) as [[]|].
    + split; by intros [? ?].
    + split; by intros [? _].
    + split; by intros [? _].
Qed.

(** X12. The files [_open_file] names for one timestamp expire
    together. For a timestamp without underscore or slash: if the
    timestamp has not reached the maximum age, the base name and each
    numbered variant [_(i)] that is present is still present after
    [_delete_old_logs], whether it returns or raises; and when it
    returns, a variant is present afterwards exactly if it was
    present and the timestamp has not reached the age. *)
Theorem variants_expire_together (entries : gset string) (i : nat) :
  timestamp ≠ "" →
  has_char "_" timestamp = false →
  has_char "/" timestamp = false →
  let r := _delete_old_logs LOGS expired unlink_raises entries in
  let p := path_of LOGS timestamp i in
  (expired timestamp ≠ Some true → (p ∈ present r ↔ p ∈ entries)) ∧
  (raised_at r = None → (p ∈ present r ↔ p ∈ entries ∧ expired timestamp ≠ Some true)).
Proof. apply survives_path_of. Qed.

(** [_open_file] returns, given fuel beyond the first free candidate. *)
Lemma open_file_returns (fs : gmap string string) :
  ∃ k, (k ≤ size fs)%nat ∧
       fs !! path_of LOGS timestamp k = None ∧
       ∀ fuel, (k < fuel)%nat →
         _open_file LOGS timestamp fuel fs =
           Some (path_of LOGS timestamp k, <[path_of LOGS timestamp k := ""]> fs).
Proof.
  destruct (open_from_spec LOGS timestamp (S (size fs)) 0 fs)
    as [Hall|(k & Hk & Hfree & Hbelow & Hrun)].
  - assert (S (size fs) ≤ size fs)%nat; [|lia].
    apply (taken_paths_bound LOGS timestamp). intros j Hj. apply Hall. lia.
  - exists k. split.
    { apply (taken_paths_bound LOGS timestamp). intros j Hj. apply Hbelow. lia. }
    split; [done|]. intros fuel Hfuel. unfold _open_file.
    destruct (open_from_spec LOGS timestamp fuel 0 fs)
      as [Hall|(k' & Hk' & Hfree' & Hbelow' & Hrun')].
    + destruct (Hall k) as [c Hc]; [lia|]. by rewrite Hfree in Hc.
    + destruct (lt_eq_lt_dec k k') as [[Hlt | -> ] | Hgt]; [| done |].
      * destruct (Hbelow' k) as [c Hc]; [lia|]. by rewrite Hfree in Hc.
      * destruct (Hbelow k') as [c Hc]; [lia|]. by rewrite Hfree' in Hc.
Qed.

(** X13. [setup_logs] opens the session's file and then clears old
    logs. For a timestamp without underscore or slash, whatever the
    directory holds: [_open_file] returns a new path; if the timestamp
    has not reached the maximum age, that file is still present after
    [_delete_old_logs], whether it returns or raises; and when
    [_delete_old_logs] returns, the session's own file is present
    exactly if the timestamp has not reached the age, so a timestamp
    that already counts as expired gets its new file removed at
    once. *)
Theorem new_log_after_cleanup (fs : gmap string string) :
  timestamp ≠ "" →
  has_char "_" timestamp = false →
  has_char "/" timestamp = false →
  ∃ k, (k ≤ size fs)%nat ∧
       fs !! path_of LOGS timestamp k = None ∧
       ∀ fuel, (k < fuel)%nat →
         ∃ fs1,
           _open_file LOGS timestamp fuel fs = Some (path_of LOGS timestamp k, fs1) ∧
           dom fs1 = {[path_of LOGS timestamp k]} ∪ dom fs ∧
           let r := _delete_old_logs LOGS expired unlink_raises (dom fs1) in
           (expired timestamp ≠ Some true → path_of LOGS timestamp k ∈ present r) ∧
           (raised_at r = None →
              (path_of LOGS timestamp k ∈ present r ↔ expired timestamp ≠ Some true)).
Proof.
  intros Hne Hunder Hslash.
  destruct (open_file_returns fs) as (k & Hk & Hfree & Hrun).
  exists k. split; [done|]. split; [done|]. intros fuel Hfuel.
  eexists. split; [by apply Hrun|]. split; [by rewrite dom_insert_L|].
  destruct (survives_path_of
              (dom (<[path_of LOGS timestamp k := ""]> fs)) k Hne Hunder Hslash)
    as [Hlive Hret].
  assert (path_of LOGS timestamp k ∈ dom (<[path_of LOGS timestamp k := ""]> fs))
    as Hin by (rewrite dom_insert_L; by apply elem_of_union_l, elem_of_singleton).
  cbv zeta. split.
  - intros Hl. by apply (Hlive Hl).
  - intros Hr. rewrite (Hret Hr). split; [by intros [_ ?]|done].
Qed.

(** X16. Two sessions that start within the same timestamp get two
    different log files. Whatever the directory holds, [_open_file]
    returns a new path; run again on a directory with the same files
    plus that one, whatever has been written to them meanwhile, it
    returns another new path and leaves the first session's file with
    the contents it has. *)
Theorem open_file_twice (fs : gmap string string) :
  ∃ k1, (k1 ≤ size fs)%nat ∧
    (∀ fuel, (k1 < fuel)%nat →
       _open_file LOGS timestamp fuel fs =
         Some (path_of LOGS timestamp k1, <[path_of LOGS timestamp k1 := ""]> fs)) ∧
    ∀ fs1 : gmap string string,
      dom fs1 = {[path_of LOGS timestamp k1]} ∪ dom fs →
      ∃ k2, (k2 ≤ size fs1)%nat ∧
        path_of LOGS timestamp k2 ≠ path_of LOGS timestamp k1 ∧
        (∀ fuel, (k2 < fuel)%nat →
           _open_file LOGS timestamp fuel fs1 =
             Some (path_of LOGS timestamp k2,
                   <[path_of LOGS timestamp k2 := ""]> fs1)) ∧
        <[path_of LOGS timestamp k2 := ""]> fs1 !! path_of LOGS timestamp k1
          = fs1 !! path_of LOGS timestamp k1 ∧
        is_Some (fs1 !! path_of LOGS timestamp k1).
Proof.
  destruct (open_file_returns fs) as (k1 & Hk1 & Hfree1 & Hrun1).
  exists k1. split; [done|]. split; [done|]. intros fs1 Hdom.
  destruct (open_file_returns fs1) as (k2 & Hk2 & Hfree2 & Hrun2).
  assert (is_Some (fs1 !! path_of LOGS timestamp k1)) as Hthere.
  { apply elem_of_dom. rewrite Hdom. by apply elem_of_union_l, elem_of_singleton. }
  assert (path_of LOGS timestamp k2 ≠ path_of LOGS timestamp k1) as Hne.
  { intros Heq. rewrite Heq in Hfree2. rewrite Hfree2 in Hthere. by destruct Hthere. }
  exists k2. split; [done|]. split; [done|]. split; [done|].
  split; [by apply lookup_insert_ne|done].
Qed.

(** X17. With the clock at one instant, clearing old logs again after
    a run that returned removes nothing: the second run returns too,
    the paths present after the first are present after the second, it
    logs no removal, and it repeats exactly the warnings of the first,
    one for each [.txt] entry whose prefix is no date. *)
Theorem delete_old_logs_idempotent (entries : gset string) :
  let first := _delete_old_logs LOGS expired unlink_raises entries in
  let second := _delete_old_logs LOGS expired unlink_raises (present first) in
  raised_at first = None →
  raised_at second = None ∧
  present second = present first ∧
  (∀ msg, LogInfo msg ∉ logged second) ∧
  (∀ msg, LogWarning msg ∈ logged second ↔ LogWarning msg ∈ logged first).
Proof.
  intros first second Hret1.
  destruct (delete_old_logs_returned entries Hret1) as [Hp1 Hr1].
  fold first in Hp1, Hr1.
  assert (raised_at second = None) as Hret2.
  { apply (proj2 (proj2 (proj2 (proj2 (delete_old_logs_any (present first)))))).
    intros q [_ Hq]%Hp1 Hu. congruence. }
  destruct (delete_old_logs_returned (present first) Hret2) as [Hp2 Hr2].
  fold second in Hp2, Hr2.
  assert (∀ p nm r,
            entry_name LOGS p = Some nm → ends_with ".txt" nm = true →
            record_of LOGS expired nm = Some r →
            unlinked LOGS expired p = match r with LogInfo _ => true | _ => false end)
    as Hrec.
  { intros p nm r Hnm Htxt. rewrite (unlinked_entry _ _ Hnm Htxt).
    unfold record_of.
    destruct (expired (before "_" (stem nm))) as [[]|]; by intros [= <-]. }
  split; [done|]. split; [|split].
  - apply set_eq. intros p. rewrite Hp2, Hp1. tauto.
  - intros msg (p & nm & [Hp Hun]%Hp1 & Hnm & Htxt & Hr)%Hr2.
    rewrite (Hrec _ _ _ Hnm Htxt Hr) in Hun. done.
  - intros msg. rewrite Hr2, Hr1. split.
    + intros (p & nm & [Hp Hun]%Hp1 & Hnm & Htxt & Hr). eauto 10.
    + intros (p & nm & Hp & Hnm & Htxt & Hr). exists p, nm.
      split; [|done]. apply Hp1. split; [done|].
      by rewrite (Hrec _ _ _ Hnm Htxt Hr).
Qed.

End OldLogsFacts.


(** ** The further properties on concrete states *)

Lemma create_ticket_unprovisioned_witness :
  inserts SUGGESTION (by_user 42, [AMember (member 42); AText "x"]) = true ∧
  create_text_channel "suggestion-ticket-1" 9 (guild s0_offline) = None ∧
  ∃ s',
    create_ticket 9 (by_user 42) SUGGESTION [AMember (member 42); AText "x"] s0_offline
      = (Raised HTTPException, s') ∧
    find_by_id (db s') SUGGESTION 1 = Some SqlNull ∧
    guild s' = guild s0_offline ∧
    trace s' = trace s0_offline
      ++ insert_events user_suggestion_tickets [SqlInt 42; SqlText "x"] 1
      ++ [EvCreateChannel "suggestion-ticket-1" 9].
Proof.
  split; [reflexivity|]. split; [reflexivity|].
  apply (create_ticket_unprovisioned 9 (by_user 42) SUGGESTION
           [AMember (member 42); AText "x"] s0_offline); reflexivity.
Defined.

Lemma close_ticket_unknown_channel_witness :
  find_by_id (db s_channelless) REPORT 1 = Some SqlNull ∧
  get_channel SqlNull (guild s_channelless) = None ∧
  ∃ s',
    close_ticket (by_user 2) REPORT 1 s_channelless = (Raised AttributeError, s') ∧
    find_by_id (db s') REPORT 1 = None ∧
    guild s' = guild s_channelless ∧
    trace s' = trace s_channelless ++
      [EvFetchall (SelectChannel (table_of REPORT)) [SqlInt 1]
         (sql_select_channel (SqlInt 1)
            (get_table (db s_channelless) (table_of REPORT)));
       EvExecute (DeleteTicket (table_of REPORT)) [SqlInt 1];
       EvCommit].
Proof.
  split; [reflexivity|]. split; [reflexivity|].
  apply (close_ticket_unknown_channel (by_user 2) REPORT 1 SqlNull s_channelless);
    reflexivity.
Defined.

Lemma create_ticket_wrong_arity_witness :
  self_report (by_user 1) REPORT [AMember (member 1); AMember (member 2)] = false ∧
  length [AMember (member 1); AMember (member 2)] ≠ placeholders (table_of REPORT) ∧
  (REPORT = REPORT → (2 ≤ length [AMember (member 1); AMember (member 2)])%nat) ∧
  create_ticket 9 (by_user 1) REPORT [AMember (member 1); AMember (member 2)] s0 =
    (Raised ProgrammingError,
     mkState (db s0) (guild s0)
       (trace s0 ++ [EvExecute (InsertTicket (table_of REPORT))
                        (map normalize [AMember (member 1); AMember (member 2)])])).
Proof.
  assert (length [AMember (member 1); AMember (member 2)]
            ≠ placeholders (table_of REPORT)) as Hlen by (cbn; lia).
  assert (REPORT = REPORT → (2 ≤ length [AMember (member 1); AMember (member 2)])%nat)
    as Htwo by (intros _; cbn; lia).
  split; [reflexivity|]. split; [exact Hlen|]. split; [exact Htwo|].
  exact (create_ticket_wrong_arity 9 (by_user 1) REPORT
           [AMember (member 1); AMember (member 2)] s0 eq_refl Hlen Htwo).
Defined.

Lemma create_report_too_short_witness :
  (length [AMember (member 1)] < 2)%nat ∧
  create_ticket 9 (by_user 1) REPORT [AMember (member 1)] s_open
    = (Raised IndexError, s_open).
Proof.
  assert (length [AMember (member 1)] < 2)%nat as Hlen by (cbn; lia).
  split; [exact Hlen|].
  exact (create_report_too_short 9 (by_user 1) [AMember (member 1)] s_open Hlen).
Defined.

Lemma unique_ids_preserved_witness :
  unique_ids (db s_open) ∧
  unique_ids (db (snd (create_ticket 9 (by_user 3) REPORT
                         [AMember (member 3); AMember (member 4); AText "rude"] s_open))) ∧
  unique_ids (db (snd (close_ticket (by_user 3) REPORT 1 s_open))).
Proof.
  assert (unique_ids (db s_open)) as Huniq.
  { split; cbn; [apply NoDup_singleton|apply NoDup_nil_2]. }
  split; [exact Huniq|].
  exact (unique_ids_preserved 9 (by_user 3) REPORT
           [AMember (member 3); AMember (member 4); AText "rude"] 1 s_open Huniq).
Defined.

Lemma create_then_close_restores_witness :
  inserts REPORT (by_user 3, [AMember (member 3); AMember (member 4); AText "rude"])
    = true ∧
  let s1 := snd (create_ticket 9 (by_user 3) REPORT
                   [AMember (member 3); AMember (member 4); AText "rude"] s_open) in
  let s2 := snd (close_ticket (by_user 5) REPORT 2 s1) in
  rows (get_table (db s2) user_report_tickets)
    = rows (get_table (db s_open) user_report_tickets) ∧
  get_table (db s2) user_suggestion_tickets
    = get_table (db s_open) user_suggestion_tickets ∧
  seq (get_table (db s2) user_report_tickets) = 2 ∧
  next_id (get_table (db s2) user_report_tickets) = 2 + 1.
Proof.
  split; [reflexivity|].
  apply (create_then_close_restores 9 (by_user 3) (by_user 5) REPORT
           [AMember (member 3); AMember (member 4); AText "rude"] s_open).
  reflexivity.
Defined.

Lemma report_on_submit_turned_away_witness :
  match lookup_member (by_user 1) "alice" (guild s0) with
  | None => True
  | Some member => m_id member = m_id (user (by_user 1))
  end ∧
  ∃ s',
    report_on_submit 9 lookup_member (by_user 1) (by_user 1) "alice" "x" s0
      = (Returned tt, s') ∧
    db s' = db s0 ∧
    guild s' = guild s0 ∧
    trace s' = trace s0 ++
      match lookup_member (by_user 1) "alice" (guild s0) with
      | None => [EvRespond unable_msg true]
      | Some _ => [EvFollowup self_report_msg true; EvRespond thanks_report_msg true]
      end.
Proof.
  split; [reflexivity|].
  apply (report_on_submit_turned_away 9 lookup_member (by_user 1) (by_user 1)
           "alice" "x" s0).
  reflexivity.
Defined.

Lemma set_channel_frame_witness :
  let args := [AMember (member 3); AMember (member 4); AText "rude"] in
  let ch := {| ch_id := 101; ch_name := "report-ticket-2"; ch_category := 9 |} in
  let s' := snd (create_ticket 9 (by_user 3) REPORT args s_open) in
  inserts REPORT (by_user 3, args) = true ∧
  create_text_channel "report-ticket-2" 9 (guild s_open)
    = Some (ch, SimpleGuild.mk [channel_100; ch] 102 true) ∧
  ∃ tb1 r r2,
    sql_insert user_report_tickets (map normalize args)
      (get_table (db s_open) user_report_tickets) = Some tb1 ∧
    rows tb1 = rows (get_table (db s_open) user_report_tickets) ++ [r] ∧
    sql_last_id tb1 = [[SqlInt 2]] ∧
    ticket_id r = 2 ∧
    (∀ r', r' ∈ rows (get_table (db s_open) user_report_tickets) → ticket_id r' ≠ 2) ∧
    EvExecute (UpdateChannel user_report_tickets) [SqlInt 101; SqlInt 2] ∈ trace s' ∧
    rows (get_table (db s') user_report_tickets)
      = rows (get_table (db s_open) user_report_tickets) ++ [r2] ∧
    channel_id r2 = SqlInt 101 ∧
    ticket_id r2 = ticket_id r ∧
    user_id r2 = user_id r ∧
    accused_user_id r2 = accused_user_id r ∧
    msg r2 = msg r ∧
    seq (get_table (db s') user_report_tickets) = seq tb1 ∧
    get_table (db s') user_suggestion_tickets
      = get_table (db s_open) user_suggestion_tickets.
Proof.
  cbv zeta. split; [reflexivity|]. split; [reflexivity|].
  apply (set_channel_frame 9 (by_user 3) REPORT
           [AMember (member 3); AMember (member 4); AText "rude"] s_open
           {| ch_id := 101; ch_name := "report-ticket-2"; ch_category := 9 |}
           (SimpleGuild.mk
              [channel_100;
               {| ch_id := 101; ch_name := "report-ticket-2"; ch_category := 9 |}]
              102 true)); reflexivity.
Defined.

Lemma suggestion_on_submit_outcome_witness :
  let s' := snd (suggestion_on_submit 9 (by_user 42) (by_user 42) "add dark mode" s0) in
  suggestion_on_submit 9 (by_user 42) (by_user 42) "add dark mode" s0
    = (Returned tt, s') ∧
  ∃ ch,
    create_text_channel "suggestion-ticket-1" 9 (guild s0) = Some (ch, guild s') ∧
    get_table (db s') user_suggestion_tickets =
      {| rows := [ {| ticket_id := 1; user_id := SqlInt 42; accused_user_id := None;
                      channel_id := SqlInt (ch_id ch);
                      msg := SqlText "add dark mode" |} ];
         seq := 1 |} ∧
    get_table (db s') user_report_tickets = get_table (db s0) user_report_tickets ∧
    trace s' = trace s0 ++
      insert_events user_suggestion_tickets [SqlInt 42; SqlText "add dark mode"] 1 ++
      [ EvCreateChannel "suggestion-ticket-1" 9;
        EvExecute (UpdateChannel user_suggestion_tickets) [SqlInt (ch_id ch); SqlInt 1];
        EvCommit;
        EvSend ch
          {| e_colour := 0;
             e_title := "Suggestion Ticket #1";
             e_fields :=
               [ {| f_name := "Suggestion From"; f_value := "<@42>";
                    f_inline := false |};
                 {| f_name := "Suggestion/Feature Request";
                    f_value := "add dark mode"; f_inline := false |} ] |};
        EvRespond thanks_suggestion_msg true ].
Proof.
  cbv zeta. split; [reflexivity|].
  apply (suggestion_on_submit_outcome 9 (by_user 42) (by_user 42) "add dark mode" s0).
  reflexivity.
Defined.

Lemma report_on_submit_outcome_witness :
  let s' := snd (report_on_submit 9 lookup_member (by_user 1) (by_user 1)
                   "bob" "rude" s0) in
  lookup_member (by_user 1) "bob" (guild s0) = Some (member 2) ∧
  m_id (member 2) ≠ m_id (user (by_user 1)) ∧
  report_on_submit 9 lookup_member (by_user 1) (by_user 1) "bob" "rude" s0
    = (Returned tt, s') ∧
  ∃ ch,
    create_text_channel "report-ticket-1" 9 (guild s0) = Some (ch, guild s') ∧
    get_table (db s') user_report_tickets =
      {| rows := [ {| ticket_id := 1; user_id := SqlInt 1;
                      accused_user_id := Some (SqlInt 2);
                      channel_id := SqlInt (ch_id ch); msg := SqlText "rude" |} ];
         seq := 1 |} ∧
    get_table (db s') user_suggestion_tickets
      = get_table (db s0) user_suggestion_tickets ∧
    trace s' = trace s0 ++
      insert_events user_report_tickets [SqlInt 1; SqlInt 2; SqlText "rude"] 1 ++
      [ EvCreateChannel "report-ticket-1" 9;
        EvExecute (UpdateChannel user_report_tickets) [SqlInt (ch_id ch); SqlInt 1];
        EvCommit;
        EvSend ch
          {| e_colour := 0;
             e_title := "Report Ticket #1";
             e_fields :=
               [ {| f_name := "Accuser"; f_value := "<@1>"; f_inline := false |};
                 {| f_name := "Accusing"; f_value := "<@2>"; f_inline := false |};
                 {| f_name := "Reason Given"; f_value := "rude";
                    f_inline := false |} ] |};
        EvRespond thanks_report_msg true ].
Proof.
  assert (m_id (member 2) ≠ m_id (user (by_user 1))) as Hother by (cbn; lia).
  cbv zeta. split; [reflexivity|]. split; [exact Hother|]. split; [reflexivity|].
  exact (report_on_submit_outcome 9 lookup_member (by_user 1) (by_user 1)
           "bob" "rude" (member 2) s0 _ eq_refl Hother eq_refl).
Defined.

Lemma delete_old_logs_filter_witness :
  let entries : gset string :=
    {[ "logs/old.txt"; "logs/old_(1).txt"; "logs/new.txt"; "logs/notes.txt";
       "logs/old.log" ]} in
  let r := _delete_old_logs "logs" reached no_dirs entries in
  raised_at r = None ∧
  present r = filter (λ p, unlinked "logs" reached p = false) entries ∧
  logged r = omap (λ pn, record_of "logs" reached pn.2) (glob_txt "logs" entries) ∧
  ∀ rec, rec ∈ logged r ↔
         ∃ p nm, p ∈ entries ∧ entry_name "logs" p = Some nm ∧
                 ends_with ".txt" nm = true ∧ record_of "logs" reached nm = Some rec.
Proof.
  cbv zeta.
  assert (raised_at
            (_delete_old_logs "logs" reached no_dirs
               {[ "logs/old.txt"; "logs/old_(1).txt"; "logs/new.txt"; "logs/notes.txt";
                  "logs/old.log" ]}) = None) as Hret by (by vm_compute).
  split; [exact Hret|].
  exact (delete_old_logs_filter "logs" reached no_dirs _ Hret).
Defined.

Lemma variants_expire_together_witness :
  let entries : gset string := {[ "logs/old_(2).txt"; "logs/new.txt" ]} in
  let r := _delete_old_logs "logs" reached no_dirs entries in
  let p := path_of "logs" "old" 2 in
  "old" ≠ "" ∧
  has_char "_" "old" = false ∧
  has_char "/" "old" = false ∧
  (reached "old" ≠ Some true → (p ∈ present r ↔ p ∈ entries)) ∧
  (raised_at r = None → (p ∈ present r ↔ p ∈ entries ∧ reached "old" ≠ Some true)).
Proof.
  assert ("old" ≠ "") as Hne by done.
  cbv zeta. split; [exact Hne|]. split; [reflexivity|]. split; [reflexivity|].
  exact (variants_expire_together "logs" "old" reached no_dirs
           {[ "logs/old_(2).txt"; "logs/new.txt" ]} 2 Hne eq_refl eq_refl).
Defined.

Lemma new_log_after_cleanup_witness :
  let fs : gmap string string := {[ "logs/new.txt" := "earlier" ]} in
  "new" ≠ "" ∧
  has_char "_" "new" = false ∧
  has_char "/" "new" = false ∧
  ∃ k, (k ≤ size fs)%nat ∧
       fs !! path_of "logs" "new" k = None ∧
       ∀ fuel, (k < fuel)%nat →
         ∃ fs1,
           _open_file "logs" "new" fuel fs = Some (path_of "logs" "new" k, fs1) ∧
           dom fs1 = {[path_of "logs" "new" k]} ∪ dom fs ∧
           let r := _delete_old_logs "logs" reached no_dirs (dom fs1) in
           (reached "new" ≠ Some true → path_of "logs" "new" k ∈ present r) ∧
           (raised_at r = None →
              (path_of "logs" "new" k ∈ present r ↔ reached "new" ≠ Some true)).
Proof.
  assert ("new" ≠ "") as Hne by done.
  cbv zeta. split; [exact Hne|]. split; [reflexivity|]. split; [reflexivity|].
  exact (new_log_after_cleanup "logs" "new" reached no_dirs
           {[ "logs/new.txt" := "earlier" ]} Hne eq_refl eq_refl).
Defined.

Lemma delete_old_logs_idempotent_witness :
  let entries : gset string :=
    {[ "logs/old.txt"; "logs/new.txt"; "logs/notes.txt" ]} in
  let first := _delete_old_logs "logs" reached no_dirs entries in
  let second := _delete_old_logs "logs" reached no_dirs (present first) in
  raised_at first = None ∧
  raised_at second = None ∧
  present second = present first ∧
  (∀ msg, LogInfo msg ∉ logged second) ∧
  (∀ msg, LogWarning msg ∈ logged second ↔ LogWarning msg ∈ logged first).
Proof.
  cbv zeta.
  assert (raised_at
            (_delete_old_logs "logs" reached no_dirs
               {[ "logs/old.txt"; "logs/new.txt"; "logs/notes.txt" ]}) = None)
    as Hret by (by vm_compute).
  split; [exact Hret|].
  exact (delete_old_logs_idempotent "logs" reached no_dirs _ Hret).
Defined.

(** With [logs/old.txt] a directory, the cleanup raises there and
    leaves it, after logging the removal it could not carry out. *)
Example cleanup_raises_at_directory :
  let r := _delete_old_logs "logs" reached old_is_dir {[ "logs/old.txt"; "logs/new.txt" ]} in
  raised_at r = Some "logs/old.txt" ∧
  present r = {[ "logs/old.txt"; "logs/new.txt" ]} ∧
  logged r = [LogInfo "Removing expired log file: {path.name}"].
Proof. cbv zeta. split; [by vm_compute|]. split; [|by vm_compute]. by vm_compute. Qed.

(** A cleanup that returns: the two expired files are removed, the
    file with no date in its name and the one named [.txt] are warned
    about and stay, and what is no [.txt] entry of the directory is
    passed over. *)
Example cleanup_returns :
  let r := _delete_old_logs "logs" reached no_dirs
             {[ "logs/old.txt"; "logs/old_(1).txt"; "logs/new.txt"; "logs/notes.txt";
                "logs/old.log"; "logs/sub/old.txt"; "logs/.txt" ]} in
  raised_at r = None ∧
  present r = {[ "logs/new.txt"; "logs/notes.txt"; "logs/old.log";
                 "logs/sub/old.txt"; "logs/.txt" ]} ∧
  logged r = [ LogInfo "Removing expired log file: {path.name}";
               LogInfo "Removing expired log file: {path.name}";
               LogWarning "logs contains a problematic filename: notes.txt";
               LogWarning "logs contains a problematic filename: .txt" ].
Proof. cbv zeta. split; [by vm_compute|]. split; by vm_compute. Qed.
